(* ===== verification/_CoqProject ===== *)
-Q . S2P
Prelude.v
GL.v
Shell.v
Bresenham.v
DDA.v
Circle.v
Ellipse.v
LineGraph.v
PieChart.v
BresenhamApp.v
DDAApp.v
CircleApp.v
