(* ===== verification/Prelude.v ===== *)
(** * Scan conversion in COMP342 lab 2: a verification development

    The repository holds six Python/OpenGL programs.  Each computes a list
    of integer pixels, or a list of pie sectors, with a pure function and
    then draws the result with GLFW and PyOpenGL.  This development models
    the pure functions and proves what makes them correct.  It also models
    the programs around them: the OpenGL calls they make, and their [main]
    functions as interaction trees that talk to GLFW, OpenGL and the
    console.  Three of the six programs are modelled this way so far.

    ** Files and what they model

    - [Prelude] (this file): what all components share.  It has the pixel
      type [point] and Python's [append]/[extend].  The two loop shapes of
      the sources are combinators: [for_range] for [for _ in range(n)] and
      [while_loop] for [while cond:], which runs on fuel and returns
      [option].  Reachability of a [while] loop is the step relation
      [loop_reach], reasoned about by rule induction.  Python's [round]
      (half to even) and [int] (truncation) are [py_round] and [py_int] on
      exact rationals, and a small exception monad [except] carries
      [ZeroDivisionError] ([py_div]).
    - [Bresenham] ([src/bresenham.py], [bresenham_line]).  The record
      [state] holds the locals [x], [y], [p] and [points].  [step_x_major]
      and [step_y_major] are the bodies of the two [for] loops, and
      [bresenham_line] is the whole function.
    - [DDA] ([src/DDA.py], [dda_line]).  The float position is an exact
      rational; [step] is the loop body.
    - [Circle] ([src/mid_point_circle.py]).  It has [plot_circle_points],
      the initial state [init], the loop guard [cond], the loop body [body]
      and [midpoint_circle].
    - [Ellipse] ([src/mid_point_ellipse.py]).  It has
      [plot_ellipse_points], [init], the two loops ([cond1]/[region1] and
      [cond2]/[region2]), the recomputation [start_region2] of the
      parameter between them, and [midpoint_ellipse].  The decision
      parameters [p1] and [p2] of the source are quarter-integers.  The
      state keeps [4 * p], so that the model stays on [Z] and every
      comparison [p < 0] is unchanged.
    - [LineGraph] ([src/line_graph.py]).  The file repeats [bresenham_line]
      and [dda_line]; they are the same definitions as in [Bresenham] and
      [DDA].  They are given to the chart code through the interface
      [LineRasterizer], a type class whose laws are: the first pixel is the
      start, the last pixel is the end, and the line is never empty.  The
      chart code is [line_func] (the selection by string), [graph_step] and
      [generate_graph_lines].  [normalize_data] is modelled with Python's
      [min], [max] and [int], its two return shapes ([norm_result]), and
      its divisions as [py_div], so that a zero range would raise
      [ZeroDivisionError] as in Python ([map_except] is its loop).
    - [PieChart] ([src/pie_chart.py], [create_pie_chart]).  [pie_step] is
      one iteration of the [zip] loop.  It has two divisions that may raise
      [ZeroDivisionError].  [math.pi] is a parameter of the section,
      instantiated by [math_pi], the double nearest to pi.
    - [GL]: the contract of the OpenGL immediate-mode calls the programs
      make, as a state machine.  OpenGL is a library, so this is a model
      of its specification, not of repository code.  [GL.cmd] is one call
      and [GL.exec] its effect on [GL.state].  A call made where OpenGL
      forbids it is ignored and sets the error flag, as [glGetError]
      would report.  The framebuffer is the list of drawing operations
      since the last [glClear].
    - [Shell]: what the six [main] functions share.  An event type
      [glfwE] covers GLFW, one OpenGL call and [print].  [glfw_main] is
      the init / window / context / terminate shell, and [render_loop]
      is the [while not glfw.window_should_close(...)] loop
      ([ITree.iter]).  A run against a scripted environment ([env]:
      whether init and the window succeed, after how many frames the user
      closes the window, and the OpenGL context) is the relation [runs].
      A finite prefix of a run is [emits], and the fuelled interpreter
      [run] is proved sound for [runs].  All three are built on a
      first-order [step] function.
    - [BresenhamApp], [DDAApp] and [CircleApp]: the drawing functions and
      [main] of [src/bresenham.py], [src/DDA.py] and
      [src/mid_point_circle.py].  Each has its demo data, the fields of
      its [print]s, its OpenGL [setup] and its [frame], and [main] is
      [Shell.glfw_main] around them.

    ** The theorems

    - Refinement.  The incremental loops compute closed forms:
      [bresenham_line_spec] (through [minor_offset], [k * dmin / dmax]
      rounded with ties away from the start).  The
      y-major Bresenham loop is the x-major loop with the axes exchanged
      ([step_y_major_swap], [for_range_commute]).
      [generate_graph_lines_segments] shows that the chart is the
      concatenation of the lines between consecutive data points.
    - Functional.  These cover lengths and endpoints of both line
      algorithms, the pie chart's sectors (in input order, from [-pi/2],
      contiguous), and the normalisation of a single point, where the
      zero-range guard avoids [ZeroDivisionError].
    - Invariants.  Bresenham's output is 8-connected and walks the driving
      axis without repeats.  The decision parameters of the circle and of
      both ellipse regions equal the midpoint function in every reachable
      state (rule induction on [loop_reach]).  Circle and ellipse outputs
      are closed under their reflections.
    - Bounds.  Bresenham's pixels lie within half a pixel of the segment.
      Circle pixels are within the midpoint tolerance.  Normalised points
      lie in the drawing box.  Sector angles are ordered.
    - Equivalence.  DDA and Bresenham agree on the driving axis and differ
      by at most one on the other axis ([dda_bresenham_agree]).
    - Termination and error.  [midpoint_circle_terminates],
      [midpoint_ellipse_terminates], and [create_pie_chart_error], which
      says exactly when the pie chart raises.
    - Programs.  Both error exits of the shell ([glfw_main_init_fails],
      [glfw_main_no_window]).  The complete run when the user closes the
      window after [n] frames ([glfw_main_closes]).  Liveness when the
      user never closes it: [main] never returns and goes on showing
      frames ([glfw_main_never_closed]).  Drawing a point list and
      reading it back from the framebuffer gives the pixels
      ([draw_line_points_roundtrip]).  The exact pictures the Bresenham
      and DDA programs show ([bresenham_main_frames], [dda_main_frames]).
      The unused [draw_filled_circle] fills a square
      ([draw_filled_circle_square]).

    ** Numbers

    Python floats are modelled as exact rationals.  The integer-valued
    computations (Bresenham, the circle, DDA's endpoints and step count)
    are exact in doubles as long as the values stay below [2^53], and the
    ellipse's quarter-integer parameters as long as the radii stay below
    about [2^12].  Where the doubles of the source round, the theorems
    claim only what holds for them too.  DDA's accumulated position can
    cross a tie of [round] differently from the exact value, so its exact
    closed form is a lemma ([DDA.dda_line_closed_form]), not a claim.
    The pie chart's closing angle and the sum of its percentages are
    exact only up to rounding, so they are not claimed either.

    ** Fuel

    [while_loop] needs fuel.  [midpoint_circle] gives [r + 1] iterations;
    [y - x] decreases at each one and starts at [r].  [midpoint_ellipse]
    gives region 1 [rx² + 1] iterations.  [x] grows by one at each of
    them, and it stays below [rx²] while the guard [dx < dy] holds
    ([region1_x_bound]).  Region 2 gets [y + 2] iterations, since [y]
    decreases by one each time.  The termination theorems prove these
    amounts are always enough, so [None] never arises.

    ** Not modelled

    - The drawing functions and [main] of [src/mid_point_ellipse.py],
      [src/line_graph.py] and [src/pie_chart.py].  They fit the [GL] and
      [Shell] models; they are the next part to model.
    - The text [print] produces.  A [print] is modelled by the values it
      formats ([Shell.field]), not by Python's formatting of them.
    - GLFW itself (window system, events).  It is the scripted
      environment [Shell.env].  Rasterisation by OpenGL is abstracted to
      the list of primitives sent to the framebuffer.

    Floats are modelled as exact rationals.  The DDA increment and the
    normalisation ratios are therefore exact; the source's floats may
    round a value that the model finds exactly on a tie. *)

From Stdlib Require Import ZArith Lia List QArith Qround Lqa Morphisms.
From Stdlib Require Finite.
Import ListNotations.

(** ** Shared vocabulary of the development

    This file holds what every component shares: the pixel type, the
    two loop shapes of the Python sources ([for _ in range(n)] and
    [while cond]) as state-passing combinators with their reasoning
    principles, Python's [round] and [int] on exact rationals, the
    [raster] hint database and a few tactics. *)

Declare Scope raster_scope.
Delimit Scope raster_scope with raster.
Open Scope raster_scope.

(** [a²] for the squares that fill the decision-parameter invariants. *)
Notation "a ²" := (Z.mul a a) (at level 1, format "a ²") : raster_scope.

Create HintDb raster.
Create Rewrite HintDb raster_simpl.

(** A pixel: the Python tuple [(x, y)] of two ints. *)
Definition point : Type := (Z * Z)%type.

(** Python's [points.append(p)] and [points.extend(l)]: the list grows
    at its end. *)
Definition append {A} (pts : list A) (p : A) : list A := pts ++ [p].
Definition extend {A} (pts l : list A) : list A := pts ++ l.

(** Decidable equality of pixels, for computing membership in witnesses. *)
Definition point_eqb (a b : point) : bool := ((fst a =? fst b) && (snd a =? snd b))%Z.

Lemma In_of_existsb (q : point) l : existsb (point_eqb q) l = true -> In q l.
Proof.
  intros H. apply existsb_exists in H as [q' [Hin Heq]].
  unfold point_eqb in Heq. apply andb_true_iff in Heq as [H1 H2].
  apply Z.eqb_eq in H1, H2. destruct q, q'; simpl in *; subst; exact Hin.
Qed.

Lemma last_in {A} (l : list A) d : l <> [] -> In (last l d) l.
Proof.
  induction l as [|a l IH]; intros H; [congruence|].
  destruct l as [|b l]; [left; reflexivity|]. right. apply IH. discriminate.
Qed.

(** ** [for _ in range(n): body] *)

Fixpoint for_range {S} (n : nat) (body : S -> S) (s : S) : S :=
  match n with
  | O => s
  | Datatypes.S n' => for_range n' body (body s)
  end.

Lemma for_range_S_r {S} n (body : S -> S) s :
  for_range (Datatypes.S n) body s = body (for_range n body s).
Proof. revert s; induction n; intros s; simpl in *; [reflexivity | apply IHn]. Qed.

Lemma for_range_add {S} n m (body : S -> S) s :
  for_range (n + m) body s = for_range m body (for_range n body s).
Proof. revert s; induction n; intros s; simpl; [reflexivity | apply IHn]. Qed.

(** Invariant rule for counted loops: [I k s] holds of the state after
    [k] iterations. *)
Lemma for_range_ind {S} (I : nat -> S -> Prop) (body : S -> S) s :
  I 0%nat s -> (forall k s', I k s' -> I (Datatypes.S k) (body s')) ->
  forall n, I n (for_range n body s).
Proof.
  intros H0 HS n. induction n as [|n IH]; [exact H0|].
  rewrite for_range_S_r. apply HS, IH.
Qed.

(** A counted loop whose body commutes with a change of representation
    [phi] runs the same after the change. *)
Lemma for_range_commute {S T} (phi : S -> T) (f : T -> T) (g : S -> S) :
  (forall s, f (phi s) = phi (g s)) ->
  forall n s, for_range n f (phi s) = phi (for_range n g s).
Proof.
  intros H n; induction n as [|n IH]; intros s; [reflexivity|].
  simpl. rewrite H. apply IH.
Qed.

(** The iteration counter [k = 0, 1, ..., n-1] of a counted loop, as [Z]. *)
Definition zseq (n : nat) : list Z := map Z.of_nat (seq 0 n).

Lemma zseq_S n : zseq (Datatypes.S n) = zseq n ++ [Z.of_nat n].
Proof. unfold zseq. rewrite seq_S, map_app. reflexivity. Qed.

Lemma length_zseq n : length (zseq n) = n.
Proof. unfold zseq. rewrite length_map, length_seq. reflexivity. Qed.

Lemma in_zseq n k : In k (zseq n) <-> (0 <= k < Z.of_nat n)%Z.
Proof.
  unfold zseq. rewrite in_map_iff. split.
  - intros [i [<- Hi]]. apply in_seq in Hi. lia.
  - intros Hk. exists (Z.to_nat k). split; [lia|]. apply in_seq. lia.
Qed.

(** Python's [range(start, stop, step)] for a positive [step]: the
    values [start + step * k] below [stop]. *)
Definition py_range_step (start stop step : Z) : list Z :=
  map (fun k => start + step * k)%Z (zseq (Z.to_nat ((stop - start + step - 1) / step))).

(** [range(start, stop)]. *)
Definition py_range (start stop : Z) : list Z := py_range_step start stop 1.

Lemma in_py_range_step start stop step v :
  (0 < step)%Z ->
  In v (py_range_step start stop step) <->
  exists k, (0 <= k)%Z /\ (start + step * k < stop)%Z /\ v = (start + step * k)%Z.
Proof.
  intros Hs. unfold py_range_step. rewrite in_map_iff.
  set (q := ((stop - start + step - 1) / step)%Z).
  assert (Hq : (step * q <= stop - start + step - 1 < step * (q + 1))%Z)
    by (unfold q; split; [apply Z.mul_div_le | rewrite Z.mul_add_distr_l, Z.mul_1_r;
                            pose proof (Z.mod_pos_bound (stop - start + step - 1) step);
                            pose proof (Z.div_mod (stop - start + step - 1) step)]; lia).
  split.
  - intros [k [<- Hk]]. apply in_zseq in Hk. exists k.
    assert (step * k <= step * (q - 1))%Z by (apply Z.mul_le_mono_nonneg_l; lia). lia.
  - intros [k (Hk & Hlt & ->)]. exists k. split; [reflexivity|]. apply in_zseq.
    assert (k < q)%Z; [|lia].
    destruct (Z.lt_ge_cases k q) as [|Hge]; [assumption|].
    assert (step * (q + 1) <= step * (k + 1))%Z by (apply Z.mul_le_mono_nonneg_l; lia). lia.
Qed.

Lemma in_py_range start stop v : In v (py_range start stop) <-> (start <= v < stop)%Z.
Proof.
  unfold py_range. rewrite in_py_range_step by lia. split.
  - intros [k (Hk & Hlt & ->)]. lia.
  - intros H. exists (v - start)%Z. lia.
Qed.

Lemma length_py_range start stop : length (py_range start stop) = Z.to_nat (stop - start).
Proof.
  unfold py_range, py_range_step. rewrite length_map, length_zseq.
  f_equal. rewrite Z.add_simpl_r, Z.div_1_r. reflexivity.
Qed.

Lemma hd_map_zseq {A} (f : Z -> A) n d :
  (0 < n)%nat -> hd d (map f (zseq n)) = f 0%Z.
Proof. destruct n; [lia|]. reflexivity. Qed.

Lemma last_map_zseq {A} (f : Z -> A) n d :
  last (map f (zseq (Datatypes.S n))) d = f (Z.of_nat n).
Proof. rewrite zseq_S, map_app. apply last_last. Qed.

Lemma NoDup_map_zseq {A} (f : Z -> A) n :
  (forall i j, f i = f j -> i = j) -> NoDup (map f (zseq n)).
Proof.
  intros Hinj. apply Finite.Injective_map_NoDup; [exact Hinj|].
  unfold zseq. apply Finite.Injective_map_NoDup; [intros i j; lia|]. apply seq_NoDup.
Qed.

Lemma Forall2_map_zseq {A B} (R : A -> B -> Prop) (f : Z -> A) (g : Z -> B) n :
  (forall k, (0 <= k < Z.of_nat n)%Z -> R (f k) (g k)) ->
  Forall2 R (map f (zseq n)) (map g (zseq n)).
Proof.
  induction n as [|n IH]; intros H; [constructor|].
  rewrite zseq_S, !map_app. apply Forall2_app.
  - apply IH. intros k Hk. apply H. lia.
  - constructor; [apply H; lia | constructor].
Qed.

(** [chain R l]: every two consecutive elements of [l] are related by [R]. *)
Fixpoint chain {A} (R : A -> A -> Prop) (l : list A) : Prop :=
  match l with
  | a :: ((b :: _) as t) => R a b /\ chain R t
  | _ => True
  end.

Lemma chain_cons2 {A} (R : A -> A -> Prop) a b t :
  chain R (a :: b :: t) <-> R a b /\ chain R (b :: t).
Proof. reflexivity. Qed.

Lemma chain_app_single {A} (R : A -> A -> Prop) l a b :
  chain R (l ++ [a]) -> R a b -> chain R (l ++ [a; b]).
Proof.
  destruct l as [|c l]; [simpl; tauto|]. revert c.
  induction l as [|d l IH]; intros c; [simpl; tauto|].
  simpl app. rewrite !chain_cons2. intros [H1 H2] Hab. split; [exact H1|].
  exact (IH d H2 Hab).
Qed.

Lemma chain_map_zseq {A} (R : A -> A -> Prop) (f : Z -> A) n :
  (forall k, (0 <= k)%Z -> (k + 1 < Z.of_nat n)%Z -> R (f k) (f (k + 1)%Z)) ->
  chain R (map f (zseq n)).
Proof.
  induction n as [|n IH]; intros H; [exact I|].
  destruct n as [|n]; [exact I|]. rewrite zseq_S, map_app.
  rewrite zseq_S, map_app in *. rewrite <- app_assoc. cbn [map app].
  apply chain_app_single.
  - apply IH. intros k Hk Hk'. apply H; lia.
  - replace (Z.of_nat (Datatypes.S n)) with (Z.of_nat n + 1)%Z by lia. apply H; lia.
Qed.

(** ** [while cond: body], bounded by fuel

    [while_loop fuel cond body s] runs the loop; [None] means the fuel ran
    out before [cond] became false.  Every use in the development comes
    with a theorem that the fuel it passes is enough. *)

Fixpoint while_loop {S} (fuel : nat) (cond : S -> bool) (body : S -> S) (s : S)
  : option S :=
  match fuel with
  | O => None
  | Datatypes.S f => if cond s then while_loop f cond body (body s) else Some s
  end.

(** The states a [while] loop passes through, as a step relation. *)
Inductive loop_reach {S} (cond : S -> bool) (body : S -> S) (s0 : S) : S -> Prop :=
| reach_init : loop_reach cond body s0 s0
| reach_step s : loop_reach cond body s0 s -> cond s = true ->
                 loop_reach cond body s0 (body s).

Section While.
Context {S : Type} (cond : S -> bool) (body : S -> S).

Lemma while_loop_mono n m s s' :
  while_loop n cond body s = Some s' -> (n <= m)%nat ->
  while_loop m cond body s = Some s'.
Proof.
  revert m s; induction n as [|n IH]; intros m s H Hle; [discriminate|].
  destruct m as [|m]; [lia|]. simpl in *.
  destruct (cond s); [apply IH; [exact H | lia] | exact H].
Qed.

Lemma while_loop_exit n s s' :
  while_loop n cond body s = Some s' -> cond s' = false.
Proof.
  revert s; induction n as [|n IH]; intros s H; [discriminate|]. simpl in H.
  destruct (cond s) eqn:E; [exact (IH _ H) | congruence].
Qed.

(** The final state is reached from the initial one through the loop. *)
Lemma while_loop_reach n s0 s s' :
  loop_reach cond body s0 s ->
  while_loop n cond body s = Some s' -> loop_reach cond body s0 s'.
Proof.
  revert s; induction n as [|n IH]; intros s Hr H; [discriminate|]. simpl in H.
  destruct (cond s) eqn:E; [|congruence].
  exact (IH _ (reach_step _ _ _ _ Hr E) H).
Qed.

(** Invariant rule: what the initial state satisfies and every iteration
    preserves holds of the final state. *)
Lemma while_loop_inv (P : S -> Prop) n s s' :
  P s -> (forall t, P t -> cond t = true -> P (body t)) ->
  while_loop n cond body s = Some s' -> P s'.
Proof.
  intros H0 HS. revert s H0; induction n as [|n IH]; intros s H0 H; [discriminate|].
  simpl in H. destruct (cond s) eqn:E; [exact (IH _ (HS s H0 E) H) | congruence].
Qed.

(** Termination: a measure that decreases on every iteration bounds the
    fuel needed. *)
Lemma while_loop_terminates (mu : S -> nat) :
  (forall s, cond s = true -> (mu (body s) < mu s)%nat) ->
  forall n s, (mu s < n)%nat -> exists s', while_loop n cond body s = Some s'.
Proof.
  intros Hdec n; induction n as [|n IH]; intros s Hlt; [lia|]. simpl.
  destruct (cond s) eqn:E; [|eauto].
  apply IH. specialize (Hdec s E). lia.
Qed.

(** The same, for a measure that only decreases on reachable states. *)
Lemma while_loop_terminates_from (mu : S -> nat) s0 :
  (forall s, loop_reach cond body s0 s -> cond s = true -> (mu (body s) < mu s)%nat) ->
  forall n s, loop_reach cond body s0 s -> (mu s < n)%nat ->
  exists s', while_loop n cond body s = Some s'.
Proof.
  intros Hdec n; induction n as [|n IH]; intros s Hr Hlt; [lia|]. simpl.
  destruct (cond s) eqn:E; [|eauto].
  apply IH; [exact (reach_step _ _ _ _ Hr E)|]. specialize (Hdec s Hr E). lia.
Qed.
End While.

(** Close a goal [In e [e1; ...; en]] by finding an [ei] equal to [e] up
    to integer arithmetic. *)
Ltac in_list_by_arith :=
  repeat (first [solve [left; f_equal; lia] | right]).

(** ** Exceptions

    The one Python exception the modelled code can raise, and a small
    exception monad to thread it through a loop. *)

Inductive py_exception := ZeroDivisionError.

Inductive except (A : Type) : Type :=
| Ok (a : A)
| Raise (e : py_exception).
Arguments Ok {A} a.
Arguments Raise {A} e.

Definition bind {A B} (m : except A) (k : A -> except B) : except B :=
  match m with Ok a => k a | Raise e => Raise e end.

Notation "x <- m ;; k" := (bind m (fun x => k))
  (at level 61, m at next level, right associativity) : raster_scope.

(** ** Python arithmetic on exact rationals

    Python's [/] on ints gives a float; the development computes it
    exactly in [Q].  [round] is Python 3's [round(x)]: to the nearest
    integer, ties to the even one.  [int] truncates toward zero. *)

Definition py_round (q : Q) : Z :=
  let f := Qfloor q in
  match ((q - inject_Z f) ?= (1 # 2))%Q with
  | Lt => f
  | Gt => (f + 1)%Z
  | Eq => if Z.even f then f else (f + 1)%Z
  end.

Definition py_int (q : Q) : Z := Z.quot (Qnum q) (Zpos (Qden q)).

(** [round] depends on the rational value only, not on its representation:
    the model may normalise accumulated sums with [Qred]. *)
#[export] Instance py_round_proper : Proper (Qeq ==> eq) py_round.
Proof.
  intros q q' E. unfold py_round. rewrite (Qfloor_comp q q' E).
  rewrite (Qcompare_comp (q - _) (q' - _) ltac:(rewrite E; reflexivity)
             (1 # 2) (1 # 2) ltac:(reflexivity)).
  reflexivity.
Qed.

(** The value rounded to lies within one half of the argument. *)
Lemma py_round_near (q : Q) :
  (inject_Z (py_round q) - (1 # 2) <= q <= inject_Z (py_round q) + (1 # 2))%Q.
Proof.
  unfold py_round. pose proof (Qfloor_le q) as Hl. pose proof (Qlt_floor q) as Hu.
  rewrite inject_Z_plus in Hu. set (f := Qfloor q) in *.
  destruct ((q - inject_Z f) ?= (1 # 2))%Q eqn:C;
    [apply Qeq_alt in C | apply Qlt_alt in C | apply Qgt_alt in C];
    [destruct (Z.even f)|..]; rewrite ?inject_Z_plus; change (inject_Z 1) with (1 # 1) in *; lra.
Qed.

(** Away from ties the result is determined by the distance alone. *)
Lemma py_round_unique (q : Q) (z : Z) :
  (inject_Z z - (1 # 2) < q < inject_Z z + (1 # 2))%Q -> py_round q = z.
Proof.
  intros Hz. pose proof (py_round_near q) as Hn.
  assert (inject_Z (py_round q) < inject_Z (z + 1) /\ inject_Z z < inject_Z (py_round q + 1))%Q
    as [H1 H2] by (rewrite !inject_Z_plus; change (inject_Z 1) with (1 # 1); lra).
  rewrite <- Zlt_Qlt in H1, H2. lia.
Qed.

Lemma py_round_Z (z : Z) : py_round (inject_Z z) = z.
Proof. apply py_round_unique. lra. Qed.

Lemma inject_Z_sub (a b : Z) : (inject_Z (a - b) == inject_Z a - inject_Z b)%Q.
Proof. unfold Qeq; simpl. lia. Qed.

(** [int(q)] is the floor for non-negative [q] and the ceiling otherwise. *)
Lemma py_int_spec (q : Q) :
  py_int q = if Qle_bool 0 q then Qfloor q else (- Qfloor (- q))%Z.
Proof.
  destruct q as [n d]. unfold py_int, Qfloor, Qle_bool; cbn [Qnum Qden Qopp].
  destruct (Z.leb_spec (0 * Zpos d) (n * 1)) as [H|H].
  - apply Z.quot_div_nonneg; lia.
  - replace n with (- - n)%Z at 1 by lia. rewrite Z.quot_opp_l by lia.
    rewrite Z.quot_div_nonneg by lia. reflexivity.
Qed.

#[export] Instance py_int_proper : Proper (Qeq ==> eq) py_int.
Proof.
  intros q q' E. rewrite !py_int_spec.
  assert (Qle_bool 0 q = Qle_bool 0 q') as ->.
  { destruct (Qle_bool 0 q) eqn:B1, (Qle_bool 0 q') eqn:B2; try reflexivity;
      rewrite ?Qle_bool_iff in *; rewrite <- ?not_true_iff_false, ?Qle_bool_iff in *;
      rewrite E in *; contradiction. }
  rewrite (Qfloor_comp _ _ E), (Qfloor_comp (- q) (- q') ltac:(rewrite E; reflexivity)).
  reflexivity.
Qed.

Lemma py_int_Z (z : Z) : py_int (inject_Z z) = z.
Proof. unfold py_int. apply Z.quot_1_r. Qed.

(** For a non-negative value between two integers, [int] stays between
    them. *)
Lemma py_int_bounds (q : Q) (a b : Z) :
  (0 <= a)%Z -> (inject_Z a <= q <= inject_Z b)%Q -> (a <= py_int q <= b)%Z.
Proof.
  intros Ha [H1 H2]. rewrite py_int_spec.
  assert (Qle_bool 0 q = true) as ->.
  { apply Qle_bool_iff. apply Qle_trans with (inject_Z a); [|exact H1].
    unfold Qle; simpl. lia. }
  apply Qfloor_resp_le in H1, H2. rewrite Qfloor_Z in H1, H2. lia.
Qed.

Lemma py_int_mono (q q' : Q) :
  (0 <= q)%Q -> (q <= q')%Q -> (py_int q <= py_int q')%Z.
Proof.
  intros H0 H. rewrite !py_int_spec.
  assert (Qle_bool 0 q = true) as -> by (apply Qle_bool_iff; exact H0).
  assert (Qle_bool 0 q' = true) as -> by (apply Qle_bool_iff; apply Qle_trans with q; assumption).
  apply Qfloor_resp_le, H.
Qed.

(** [a / b] on numbers: [ZeroDivisionError] when [b] is zero. *)
Definition py_div (a b : Q) : except Q :=
  if Qeq_bool b 0 then Raise ZeroDivisionError else Ok (a / b)%Q.

Lemma py_div_ok a b : ~ (b == 0)%Q -> py_div a b = Ok (a / b)%Q.
Proof.
  intros H. unfold py_div. destruct (Qeq_bool b 0) eqn:E; [|reflexivity].
  apply Qeq_bool_iff in E. contradiction.
Qed.

(** A [for] loop that appends [f a] for each [a] and stops at the first
    exception [f] raises. *)
Fixpoint map_except {A B} (f : A -> except B) (l : list A) : except (list B) :=
  match l with
  | [] => Ok []
  | a :: t => b <- f a ;; bs <- map_except f t ;; Ok (b :: bs)
  end.

Lemma map_except_ok {A B} (f : A -> except B) (g : A -> B) l :
  (forall a, In a l -> f a = Ok (g a)) -> map_except f l = Ok (map g l).
Proof.
  induction l as [|a t IH]; intros H; [reflexivity|]. cbn.
  rewrite (H a (or_introl eq_refl)). cbn. rewrite IH by (intros b Hb; apply H; right; exact Hb).
  reflexivity.
Qed.

(** [round(a / b)] for ints [a] and [b > 0], in integer terms. *)
Lemma py_round_div (a b : Z) :
  (0 < b)%Z -> (2 * a - b <= 2 * b * py_round (a # Z.to_pos b) <= 2 * a + b)%Z.
Proof.
  intros Hb. pose proof (py_round_near (a # Z.to_pos b)) as [H1 H2].
  unfold Qle in H1, H2; simpl in H1, H2. rewrite Z2Pos.id in H1, H2 by exact Hb. nia.
Qed.

Lemma py_round_div_exact (c b : Z) :
  (0 < b)%Z -> py_round ((c * b) # Z.to_pos b) = c.
Proof. intros Hb. pose proof (py_round_div (c * b) b Hb). nia. Qed.

#[export] Hint Rewrite @for_range_S_r py_round_Z zseq_S length_zseq : raster_simpl.
