(* ===== verification/GL.v ===== *)
(** * The OpenGL immediate-mode interface the programs draw through

    Every program of the repository draws with the fixed-function OpenGL
    calls of PyOpenGL: [glBegin]/[glEnd] around [glVertex2f], the current
    colour ([glColor3f], [glColor4f]), the rasterisation state
    ([glPointSize], [glLineWidth]), [glClear] and [glClearColor], and the
    projection set up once by [main] ([glViewport], [glMatrixMode],
    [glLoadIdentity], [glOrtho], [glEnable], [glBlendFunc], [glHint]).

    OpenGL is a library the sources call, not code of the repository: this
    file states its contract, the part of the OpenGL 2.1 specification the
    programs rely on, as a state machine.  [cmd] is one call, [state] the
    context, [exec] the effect of one call and [exec_all] of a sequence.
    As in OpenGL, a call that is not allowed where it is made does not
    stop the program: it is ignored and sets the error flag that
    [glGetError] would report ([err], the first error is kept).  The
    framebuffer is abstracted to the list of drawing operations since the
    last [glClear] ([frame]): a clear with its colour, then every
    primitive with its mode, size and coloured vertices.

    The lemmas run the shapes of code the programs use: a
    [glBegin]/[glVertex2f].../[glEnd] block from an idle context appends
    one primitive ([exec_block]); a primitive is complete for its mode
    when its vertex count is one the mode draws without leftovers
    ([prim_complete]). *)

From Stdlib Require Import ZArith QArith Lqa Psatz List Lia.
From S2P Require Import Prelude.
Import ListNotations.

Module GL.

(** ** Calls *)

Inductive mode := GL_POINTS | GL_LINES | GL_LINE_STRIP | GL_LINE_LOOP
                | GL_TRIANGLE_FAN | GL_QUADS.
Inductive cap := GL_LINE_SMOOTH | GL_POINT_SMOOTH | GL_BLEND.
Inductive hint_target := GL_LINE_SMOOTH_HINT | GL_POINT_SMOOTH_HINT.
Inductive hint_mode := GL_NICEST.
Inductive blend_factor := GL_SRC_ALPHA | GL_ONE_MINUS_SRC_ALPHA.
Inductive matrix_mode := GL_PROJECTION | GL_MODELVIEW.
Inductive buffer_bit := GL_COLOR_BUFFER_BIT.

Inductive cmd :=
| glBegin (m : mode)
| glEnd
| glVertex2f (x y : Q)
| glColor3f (r g b : Q)
| glColor4f (r g b a : Q)
| glPointSize (s : Q)
| glLineWidth (w : Q)
| glClear (mask : buffer_bit)
| glClearColor (r g b a : Q)
| glViewport (x y w h : Z)
| glMatrixMode (m : matrix_mode)
| glLoadIdentity
| glOrtho (l r b t n f : Q)
| glEnable (c : cap)
| glBlendFunc (s d : blend_factor)
| glHint (t : hint_target) (m : hint_mode).

(** ** The context *)

Record rgba := mk_rgba { red : Q; green : Q; blue : Q; alpha : Q }.
Definition vertex : Type := (Q * Q)%type.

(** What the framebuffer has received since the last clear. *)
Inductive draw_op :=
| Cleared (c : rgba)
| Drew (m : mode) (point_size line_width : Q) (vs : list (rgba * vertex)).

Inductive error := GL_INVALID_OPERATION | GL_INVALID_VALUE
                 | VERTEX_OUTSIDE_BEGIN.

(** An orthographic projection [glOrtho(l, r, b, t, n, f)]. *)
Record ortho := mk_ortho { o_l : Q; o_r : Q; o_b : Q; o_t : Q; o_n : Q; o_f : Q }.

Record state := mk_state {
  begun : option mode;               (* inside glBegin(m) .. glEnd *)
  pending : list (rgba * vertex);    (* vertices of the open primitive *)
  color : rgba;
  clear_color : rgba;
  point_size : Q;
  line_width : Q;
  enabled : list cap;
  blend : option (blend_factor * blend_factor);
  hints : list (hint_target * hint_mode);
  viewport : option (Z * Z * Z * Z);
  matrix : matrix_mode;
  projection : list ortho;           (* product of the matrices, outermost first *)
  modelview : list ortho;
  frame : list draw_op;
  err : option error }.

(** The state of a fresh context (OpenGL's initial values). *)
Definition initial : state :=
  mk_state None [] (mk_rgba 1 1 1 1) (mk_rgba 0 0 0 0) 1 1 [] None [] None
           GL_MODELVIEW [] [] [] None.

(** Functional updates of the fields the calls change. *)
Definition with_begun (s : state) b p : state :=
  mk_state b p (color s) (clear_color s) (point_size s) (line_width s) (enabled s)
    (blend s) (hints s) (viewport s) (matrix s) (projection s) (modelview s)
    (frame s) (err s).
Definition with_color (s : state) c : state :=
  mk_state (begun s) (pending s) c (clear_color s) (point_size s) (line_width s)
    (enabled s) (blend s) (hints s) (viewport s) (matrix s) (projection s)
    (modelview s) (frame s) (err s).
Definition with_frame (s : state) fr : state :=
  mk_state (begun s) (pending s) (color s) (clear_color s) (point_size s)
    (line_width s) (enabled s) (blend s) (hints s) (viewport s) (matrix s)
    (projection s) (modelview s) fr (err s).
Definition with_error (s : state) e : state :=
  mk_state (begun s) (pending s) (color s) (clear_color s) (point_size s)
    (line_width s) (enabled s) (blend s) (hints s) (viewport s) (matrix s)
    (projection s) (modelview s) (frame s)
    (match err s with None => Some e | Some e0 => Some e0 end).
Definition with_raster (s : state) cc ps lw en bl hs vp : state :=
  mk_state (begun s) (pending s) (color s) cc ps lw en bl hs vp (matrix s)
    (projection s) (modelview s) (frame s) (err s).
Definition with_matrices (s : state) m pr mv : state :=
  mk_state (begun s) (pending s) (color s) (clear_color s) (point_size s)
    (line_width s) (enabled s) (blend s) (hints s) (viewport s) m pr mv
    (frame s) (err s).

(** Multiply the current matrix by [o] ([None] on the identity reset). *)
Definition update_matrix (s : state) (o : option ortho) : state :=
  let f l := match o with None => [] | Some o => l ++ [o] end in
  match matrix s with
  | GL_PROJECTION => with_matrices s GL_PROJECTION (f (projection s)) (modelview s)
  | GL_MODELVIEW => with_matrices s GL_MODELVIEW (projection s) (f (modelview s))
  end.

(** The calls allowed only outside [glBegin]/[glEnd]. *)
Definition outside (s : state) (k : state -> state) : state :=
  match begun s with None => k s | Some _ => with_error s GL_INVALID_OPERATION end.

Definition add_cap (c : cap) (l : list cap) : list cap :=
  if existsb (fun c' => match c, c' with
                        | GL_LINE_SMOOTH, GL_LINE_SMOOTH | GL_POINT_SMOOTH, GL_POINT_SMOOTH
                        | GL_BLEND, GL_BLEND => true | _, _ => false end) l
  then l else l ++ [c].

(** The effect of one call. *)
Definition exec (s : state) (c : cmd) : state :=
  match c with
  | glBegin m => outside s (fun s => with_begun s (Some m) [])
  | glEnd =>
      match begun s with
      | Some m => with_begun (with_frame s (frame s ++ [Drew m (point_size s) (line_width s)
                                                         (pending s)])) None []
      | None => with_error s GL_INVALID_OPERATION
      end
  | glVertex2f x y =>
      match begun s with
      | Some m => with_begun s (Some m) (pending s ++ [(color s, (x, y))])
      | None => with_error s VERTEX_OUTSIDE_BEGIN
      end
  | glColor3f r g b => with_color s (mk_rgba r g b 1)
  | glColor4f r g b a => with_color s (mk_rgba r g b a)
  | glPointSize p =>
      outside s (fun s => if Qle_bool p 0 then with_error s GL_INVALID_VALUE
                          else with_raster s (clear_color s) p (line_width s) (enabled s)
                                 (blend s) (hints s) (viewport s))
  | glLineWidth w =>
      outside s (fun s => if Qle_bool w 0 then with_error s GL_INVALID_VALUE
                          else with_raster s (clear_color s) (point_size s) w (enabled s)
                                 (blend s) (hints s) (viewport s))
  | glClear _ => outside s (fun s => with_frame s [Cleared (clear_color s)])
  | glClearColor r g b a =>
      outside s (fun s => with_raster s (mk_rgba r g b a) (point_size s) (line_width s)
                            (enabled s) (blend s) (hints s) (viewport s))
  | glViewport x y w h =>
      outside s (fun s => if (w <? 0)%Z || (h <? 0)%Z then with_error s GL_INVALID_VALUE
                          else with_raster s (clear_color s) (point_size s) (line_width s)
                                 (enabled s) (blend s) (hints s) (Some (x, y, w, h)))
  | glMatrixMode m => outside s (fun s => with_matrices s m (projection s) (modelview s))
  | glLoadIdentity => outside s (fun s => update_matrix s None)
  | glOrtho l r b t n f =>
      outside s (fun s => if Qeq_bool l r || Qeq_bool b t || Qeq_bool n f
                          then with_error s GL_INVALID_VALUE
                          else update_matrix s (Some (mk_ortho l r b t n f)))
  | glEnable c =>
      outside s (fun s => with_raster s (clear_color s) (point_size s) (line_width s)
                            (add_cap c (enabled s)) (blend s) (hints s) (viewport s))
  | glBlendFunc sf df =>
      outside s (fun s => with_raster s (clear_color s) (point_size s) (line_width s)
                            (enabled s) (Some (sf, df)) (hints s) (viewport s))
  | glHint t m =>
      outside s (fun s => with_raster s (clear_color s) (point_size s) (line_width s)
                            (enabled s) (blend s) (hints s ++ [(t, m)]) (viewport s))
  end.

Definition exec_all (s : state) (cs : list cmd) : state := fold_left exec cs s.

(** ** Shapes of code *)

(** [for x, y in points: glVertex2f(x, y)] *)
Definition vertices (pts : list vertex) : list cmd :=
  map (fun v => glVertex2f (fst v) (snd v)) pts.

(** A pixel of the rasterisers, passed to [glVertex2f] as a float. *)
Definition of_point (q : point) : vertex := (inject_Z (fst q), inject_Z (snd q)).

(** A context with no open primitive and no error. *)
Definition idle (s : state) : Prop := begun s = None /\ pending s = [] /\ err s = None.

(** The number of vertices a mode draws without leftovers. *)
Definition prim_complete (m : mode) (n : nat) : Prop :=
  match m with
  | GL_POINTS => True
  | GL_LINES => Nat.even n = true
  | GL_LINE_STRIP | GL_LINE_LOOP => (2 <= n)%nat
  | GL_TRIANGLE_FAN => (3 <= n)%nat
  | GL_QUADS => (n mod 4 = 0)%nat
  end.

Definition op_complete (o : draw_op) : Prop :=
  match o with Cleared _ => True | Drew m _ _ vs => prim_complete m (length vs) end.

(** The vertices of a frame's primitives, in drawing order. *)
Definition frame_vertices (fr : list draw_op) : list vertex :=
  flat_map (fun o => match o with Cleared _ => [] | Drew _ _ _ vs => map snd vs end) fr.

(** [glOrtho(l, r, b, t, n, f)] maps [(x, y)] to normalised device
    coordinates. *)
Definition ortho_apply (o : ortho) (v : vertex) : vertex :=
  ((2 * (fst v - o_l o) / (o_r o - o_l o) - 1)%Q,
   (2 * (snd v - o_b o) / (o_t o - o_b o) - 1)%Q).

Definition to_ndc (s : state) (v : vertex) : vertex :=
  fold_right ortho_apply (fold_right ortho_apply v (modelview s)) (projection s).

Definition visible (ndc : vertex) : Prop :=
  (-1 <= fst ndc <= 1)%Q /\ (-1 <= snd ndc <= 1)%Q.

(** The body shared by the programs' [draw_points] functions:
    [glColor3f(color); glBegin(GL_POINTS); glVertex2f ...; glEnd()]. *)
Definition points_block (vs : list vertex) (c : Q * Q * Q) : list cmd :=
  let '(r, g, b) := c in [glColor3f r g b; glBegin GL_POINTS] ++ vertices vs ++ [glEnd].

Definition rgb (c : Q * Q * Q) : rgba := let '(r, g, b) := c in mk_rgba r g b 1.

(** The primitives drawn by a sequence of [points_block]s. *)
Definition drawn_points (ps lw : Q) (data : list (list vertex * (Q * Q * Q))) : list draw_op :=
  map (fun d => Drew GL_POINTS ps lw (map (fun v => (rgb (snd d), v)) (fst d))) data.

(** The current colour after a sequence of [points_block]s. *)
Definition last_color (data : list (list vertex * (Q * Q * Q))) (c : rgba) : rgba :=
  fold_left (fun _ d => rgb (snd d)) data c.

(** A frame that clears and then draws point sets. *)
Definition points_frame (bg : rgba) (data : list (list vertex * (Q * Q * Q))) : list cmd :=
  [glClear GL_COLOR_BUFFER_BIT; glClearColor (red bg) (green bg) (blue bg) (alpha bg)] ++
  flat_map (fun d => points_block (fst d) (snd d)) data.

(** The segments a [GL_LINES] primitive draws: vertices taken in pairs. *)
Fixpoint line_pairs {A} (vs : list A) : list (A * A) :=
  match vs with
  | a :: b :: rest => (a, b) :: line_pairs rest
  | _ => []
  end.

(** ** Lemmas *)

Lemma exec_all_app s l1 l2 : exec_all s (l1 ++ l2) = exec_all (exec_all s l1) l2.
Proof. apply fold_left_app. Qed.

Lemma exec_all_cons s c l : exec_all s (c :: l) = exec_all (exec s c) l.
Proof. reflexivity. Qed.

(** Inside an open primitive, vertices accumulate with the current colour. *)
Lemma exec_vertices s m pts :
  begun s = Some m ->
  exec_all s (vertices pts) =
  with_begun s (Some m) (pending s ++ map (fun v => (color s, v)) pts).
Proof.
  revert s. induction pts as [|v pts IH]; intros s Hb.
  - destruct s; cbn in *; subst; rewrite app_nil_r; reflexivity.
  - cbn [vertices map]. rewrite exec_all_cons. cbn [exec]. rewrite Hb.
    fold (vertices pts). rewrite IH by reflexivity. destruct s, v; cbn.
    rewrite <- app_assoc. reflexivity.
Qed.

(** A [glBegin(m)], vertices, [glEnd()] block run from an idle context
    appends one primitive of the current colour and sizes to the frame. *)
Lemma exec_block s m pts :
  idle s ->
  exec_all s ([glBegin m] ++ vertices pts ++ [glEnd]) =
  with_frame s (frame s ++ [Drew m (point_size s) (line_width s)
                              (map (fun v => (color s, v)) pts)]).
Proof.
  intros (Hb & Hp & He). rewrite !exec_all_app. cbn [exec_all fold_left exec].
  unfold outside. rewrite Hb. rewrite (exec_vertices _ m) by reflexivity.
  destruct s; cbn in *; subst; reflexivity.
Qed.

Lemma idle_with_frame s fr : idle s -> idle (with_frame s fr).
Proof. destruct s; unfold idle; cbn; tauto. Qed.

Lemma idle_with_color s c : idle s -> idle (with_color s c).
Proof. destruct s; unfold idle; cbn; tauto. Qed.

(** [-1 <= 2a/d - 1 <= 1] says that [a] lies between [0] and [d]. *)
Lemma div_unit a d : (0 < d)%Q -> ((-1 <= 2 * a / d - 1 <= 1) <-> (0 <= a <= d))%Q.
Proof.
  intros Hd. set (u := (a / d)%Q).
  assert (Ha : (a == u * d)%Q) by (unfold u; field; lra).
  assert (E : (2 * a / d == 2 * u)%Q) by (unfold u; field; lra).
  rewrite E, Ha. split; intros [H1 H2]; split; nra.
Qed.

(** Under [glOrtho(l, r, b, t, ..)] with [l < r] and [t < b] (the
    programs' [glOrtho(0, width, height, 0, -1, 1)], y pointing down), a
    vertex is visible exactly when it lies in the rectangle. *)
Lemma ortho_visible l r b t n f x y :
  (l < r)%Q -> (t < b)%Q ->
  visible (ortho_apply (mk_ortho l r b t n f) (x, y)) <->
  (l <= x <= r)%Q /\ (t <= y <= b)%Q.
Proof.
  intros Hlr Htb. unfold visible, ortho_apply; cbn [fst snd o_l o_r o_b o_t].
  assert (E : (2 * (y - b) / (t - b) == 2 * (b - y) / (b - t))%Q) by (field; lra).
  rewrite E, !div_unit by lra. split; intros [H1 H2]; split; lra.
Qed.

(** [glColor3f] of the colour, then a block: the primitive takes that colour. *)
Lemma exec_colored_block s r g b m vs :
  idle s ->
  exec_all s ([glColor3f r g b; glBegin m] ++ vertices vs ++ [glEnd]) =
  with_frame (with_color s (mk_rgba r g b 1))
    (frame s ++ [Drew m (point_size s) (line_width s) (map (fun v => (mk_rgba r g b 1, v)) vs)]).
Proof.
  intros Hs. change ([glColor3f r g b; glBegin m] ++ ?l) with ([glColor3f r g b] ++ [glBegin m] ++ l).
  rewrite exec_all_app. cbn [exec_all fold_left exec].
  rewrite (exec_block (with_color s _)) by (apply idle_with_color, Hs). destruct s; reflexivity.
Qed.

(** [glClear(GL_COLOR_BUFFER_BIT); glClearColor(r, g, b, a)] from an idle
    context: the frame is cleared with the clear colour set so far, and
    only then is the new clear colour set. *)
Lemma exec_clear_then_color s r g b a :
  idle s ->
  exec_all s [glClear GL_COLOR_BUFFER_BIT; glClearColor r g b a] =
  with_raster (with_frame s [Cleared (clear_color s)]) (mk_rgba r g b a) (point_size s)
    (line_width s) (enabled s) (blend s) (hints s) (viewport s).
Proof. intros (Hb & _ & _). cbn. unfold outside. rewrite Hb. cbn. rewrite Hb. reflexivity. Qed.

Lemma idle_with_raster s cc ps lw en bl hs vp : idle s -> idle (with_raster s cc ps lw en bl hs vp).
Proof. destruct s; unfold idle; cbn; tauto. Qed.

#[export] Hint Resolve idle_with_frame idle_with_color idle_with_raster : raster.

Lemma exec_points_blocks s data :
  idle s ->
  exec_all s (flat_map (fun d => points_block (fst d) (snd d)) data) =
  with_frame (with_color s (last_color data (color s)))
             (frame s ++ drawn_points (point_size s) (line_width s) data).
Proof.
  revert s. induction data as [|[vs [[r g] b]] data IH]; intros s Hs.
  - cbn. rewrite app_nil_r. destruct s; reflexivity.
  - cbn [flat_map fst snd]. rewrite exec_all_app. unfold points_block at 1.
    rewrite exec_colored_block by exact Hs. rewrite IH by auto with raster.
    destruct s; cbn. rewrite <- app_assoc. reflexivity.
Qed.

Lemma last_color_idem data c : last_color data (last_color data c) = last_color data c.
Proof.
  unfold last_color. destruct data as [|d data] using rev_ind; [reflexivity|].
  rewrite !fold_left_app. reflexivity.
Qed.

(** What a [points_frame] draws from an idle context. *)
Lemma exec_points_frame s bg data :
  idle s ->
  exec_all s (points_frame bg data) =
  with_frame (with_color (with_raster s bg (point_size s) (line_width s) (enabled s) (blend s)
                            (hints s) (viewport s)) (last_color data (color s)))
             (Cleared (clear_color s) :: drawn_points (point_size s) (line_width s) data).
Proof.
  intros Hs. unfold points_frame. rewrite exec_all_app, exec_clear_then_color by exact Hs.
  destruct bg. rewrite exec_points_blocks by auto with raster. destruct s; reflexivity.
Qed.

(** From the second frame on, a [points_frame] finds the context as the
    previous one left it. *)
Lemma points_frame_fix s bg data :
  idle s ->
  let s1 := with_frame (exec_all s (points_frame bg data)) [] in
  with_frame (exec_all s1 (points_frame bg data)) [] = s1.
Proof.
  intros Hs s1. unfold s1. rewrite !exec_points_frame; [|exact Hs|].
  - destruct s; cbn. rewrite last_color_idem. destruct bg; reflexivity.
  - rewrite exec_points_frame by exact Hs. destruct s; unfold idle in *; cbn in *; tauto.
Qed.


End GL.
