(* ===== verification/Shell.v ===== *)
(** * The GLFW program shell shared by the six [main] functions

    Each [main] of the repository has the same shape:
    [if not glfw.init(): return], create the window (on failure
    [glfw.terminate()] and return), make its context current, set up
    OpenGL, compute and print the data, then loop
    [while not glfw.window_should_close(window)] drawing a frame,
    swapping buffers and polling events, and finally [glfw.terminate()].

    The window loop need not terminate, so a [main] is an interaction
    tree ([itree glfwE unit]) over the events [glfwE]: the GLFW calls, one
    OpenGL call [gl c], and [print].  [glfw_main] is the common shell and
    [render_loop] the [while] loop ([ITree.iter]).

    The environment the program talks to is [env]: whether [glfw.init]
    and [glfw.create_window] succeed, after how many frames the user
    closes the window ([None]: never), and the OpenGL context
    ([GL.state]).  [handle] answers one event and records what is
    observable ([obs]): the calls, their answers, and at every
    [glfw.swap_buffers] the picture the frame drew.  [step] runs one node
    of a tree; [runs] (a complete run with its trace), [emits] (a finite
    prefix of a run) and the fuelled interpreter [run] are built on it,
    so that no reasoning needs dependent inversion on [VisF].

    The theorems of the shell hold for every program body: both error
    exits of [glfw_main]; the trace of [render_loop] when the window is
    closed after [n] frames; and when it is never closed, [glfw_main]
    never returns and shows any number of frames. *)

From Stdlib Require Import ZArith QArith List Lia.
From Stdlib Require String.
From ITree Require Import ITree Eq.Shallow.
From S2P Require Import Prelude GL.
Import ListNotations.

Module Shell.

(** ** Events *)

(** One field of a [print] call: literal text, an int, a string padded
    to a width ([{s:12s}]), a float in fixed notation ([{q:6.1f}]), or
    the [repr] of a colour tuple. *)
Inductive field :=
| FStr (s : String.string)
| FInt (z : Z)
| FPad (width : nat) (s : String.string)
| FFixed (width prec : nat) (q : Q)
| FColor (r g b : Q).

Variant glfwE : Type -> Type :=
| glfw_init : glfwE bool
| glfw_create_window (w h : Z) (title : String.string) : glfwE bool
| glfw_terminate : glfwE unit
| glfw_make_context_current : glfwE unit
| glfw_window_should_close : glfwE bool
| glfw_swap_buffers : glfwE unit
| glfw_poll_events : glfwE unit
| gl (c : GL.cmd) : glfwE unit
| print (line : list field) : glfwE unit.

(** What a run shows of one event. *)
Inductive obs :=
| OInit (ok : bool)
| OCreateWindow (w h : Z) (title : String.string) (ok : bool)
| OTerminate
| OContext
| OGl (c : GL.cmd)
| OShouldClose (b : bool)
| OSwap (shown : list GL.draw_op)
| OPoll
| OPrint (line : list field).

Record env := mk_env {
  init_ok : bool;
  window_ok : bool;
  open_frames : option nat;   (* frames before the user closes the window *)
  ctx : GL.state }.

Definition with_ctx (en : env) (s : GL.state) : env :=
  mk_env (init_ok en) (window_ok en) (open_frames en) s.
Definition with_open (en : env) (n : option nat) : env :=
  mk_env (init_ok en) (window_ok en) n (ctx en).

(** The answer to one event, the environment after it, and what it shows.
    [glfw.swap_buffers] shows the frame drawn since the last clear; the
    back buffer is then undefined until the next [glClear]. *)
Definition handle {X} (en : env) (e : glfwE X) : X * env * obs :=
  match e in glfwE X return X * env * obs with
  | glfw_init => (init_ok en, en, OInit (init_ok en))
  | glfw_create_window w h t => (window_ok en, en, OCreateWindow w h t (window_ok en))
  | glfw_terminate => (tt, en, OTerminate)
  | glfw_make_context_current => (tt, en, OContext)
  | glfw_window_should_close =>
      match open_frames en with
      | Some O => (true, en, OShouldClose true)
      | Some (S n) => (false, with_open en (Some n), OShouldClose false)
      | None => (false, en, OShouldClose false)
      end
  | glfw_swap_buffers =>
      (tt, with_ctx en (GL.with_frame (ctx en) []), OSwap (GL.frame (ctx en)))
  | glfw_poll_events => (tt, en, OPoll)
  | gl c => (tt, with_ctx en (GL.exec (ctx en) c), OGl c)
  | print l => (tt, en, OPrint l)
  end.

(** ** Running a tree *)

Inductive next (R : Type) :=
| NRet (r : R)
| NTau (u : itree glfwE R)
| NVis (o : obs) (en : env) (u : itree glfwE R).
Arguments NRet {R} r.
Arguments NTau {R} u.
Arguments NVis {R} o en u.

Definition step {R} (en : env) (t : itree glfwE R) : next R :=
  match observe t with
  | RetF r => NRet r
  | TauF u => NTau u
  | VisF e k => let '(x, en', o) := handle en e in NVis o en' (k x)
  end.

(** A complete run from [en]: its trace, final environment and result. *)
Inductive runs {R} : env -> itree glfwE R -> list obs -> env -> R -> Prop :=
| runs_ret en t r : step en t = NRet r -> runs en t [] en r
| runs_tau en t u tr en' r : step en t = NTau u -> runs en u tr en' r -> runs en t tr en' r
| runs_vis en t o en1 u tr en' r :
    step en t = NVis o en1 u -> runs en1 u tr en' r -> runs en t (o :: tr) en' r.

(** A finite prefix of a run, complete or not. *)
Inductive emits {R} : env -> itree glfwE R -> list obs -> Prop :=
| emits_nil en t : emits en t []
| emits_tau en t u tr : step en t = NTau u -> emits en u tr -> emits en t tr
| emits_vis en t o en1 u tr : step en t = NVis o en1 u -> emits en1 u tr -> emits en t (o :: tr).

(** The interpreter: at most [fuel] nodes; [None] when the fuel runs out. *)
Fixpoint run {R} (fuel : nat) (en : env) (t : itree glfwE R) : list obs * option (env * R) :=
  match fuel with
  | O => ([], None)
  | S f =>
      match step en t with
      | NRet r => ([], Some (en, r))
      | NTau u => run f en u
      | NVis o en' u => let '(tr, res) := run f en' u in (o :: tr, res)
      end
  end.

(** ** Program shapes *)

Definition trigger {X} (e : glfwE X) : itree glfwE X := ITree.trigger e.

(** A straight-line sequence of OpenGL calls. *)
Definition emit (cs : list GL.cmd) : itree glfwE unit :=
  fold_right (fun c t => ITree.bind (trigger (gl c)) (fun _ => t)) (Ret tt) cs.

(** A sequence of [print] calls. *)
Definition emit_prints (ls : list (list field)) : itree glfwE unit :=
  fold_right (fun l t => ITree.bind (trigger (print l)) (fun _ => t)) (Ret tt) ls.

(** One iteration of [while not glfw.window_should_close(window): ...]. *)
Definition loop_body (frame : list GL.cmd) (_ : unit) : itree glfwE (unit + unit) :=
  ITree.bind (trigger glfw_window_should_close) (fun close : bool =>
    if close then Ret (inr tt)
    else ITree.bind (emit frame) (fun _ =>
         ITree.bind (trigger glfw_swap_buffers) (fun _ =>
         ITree.bind (trigger glfw_poll_events) (fun _ => Ret (inl tt))))).

Definition render_loop (frame : list GL.cmd) : itree glfwE unit :=
  ITree.iter (loop_body frame) tt.

(** The shell of every [main]: [body] runs with the context current and
    ends with the window loop. *)
Definition glfw_main (w h : Z) (title : String.string) (body : itree glfwE unit)
  : itree glfwE unit :=
  ITree.bind (trigger glfw_init) (fun ok : bool =>
  if negb ok then Ret tt else
  ITree.bind (trigger (glfw_create_window w h title)) (fun win : bool =>
  if negb win then trigger glfw_terminate else
  ITree.bind (trigger glfw_make_context_current) (fun _ =>
  ITree.bind body (fun _ => trigger glfw_terminate)))).

(** The trace of [render_loop frame] from the context [s] when the
    window is closed after [n] frames, and the context it leaves. *)
Fixpoint loop_trace (n : nat) (frame : list GL.cmd) (s : GL.state) : list obs * GL.state :=
  match n with
  | O => ([OShouldClose true], s)
  | S n =>
      let s1 := GL.exec_all s frame in
      let '(tr, s') := loop_trace n frame (GL.with_frame s1 []) in
      (OShouldClose false :: map OGl frame ++ [OSwap (GL.frame s1); OPoll] ++ tr, s')
  end.

(** The pictures shown by the first [n] frames. *)
Fixpoint pictures (n : nat) (frame : list GL.cmd) (s : GL.state) : list (list GL.draw_op) :=
  match n with
  | O => []
  | S n => let s1 := GL.exec_all s frame in
           GL.frame s1 :: pictures n frame (GL.with_frame s1 [])
  end.

Definition swaps (tr : list obs) : list (list GL.draw_op) :=
  flat_map (fun o => match o with OSwap p => [p] | _ => [] end) tr.

(** ** Running the shapes *)

Lemma step_bind {R S} en (t : itree glfwE R) (k : R -> itree glfwE S) :
  step en (ITree.bind t k) =
  match step en t with
  | NRet r => step en (k r)
  | NTau u => NTau (ITree.bind u k)
  | NVis o en' u => NVis o en' (ITree.bind u k)
  end.
Proof.
  unfold step. rewrite observe_bind.
  destruct (observe t) as [r|u|X e h]; cbn; [reflexivity | reflexivity|].
  destruct (handle en e) as [[x en'] o]. reflexivity.
Qed.

Lemma step_iter {R S} en (body : R -> itree glfwE (R + S)) a :
  step en (ITree.iter body a) =
  step en (ITree.bind (body a)
             (fun lr => match lr with inl l => Tau (ITree.iter body l) | inr r => Ret r end)).
Proof. reflexivity. Qed.

Lemma step_trigger {X} en (e : glfwE X) :
  step en (trigger e) = let '(x, en', o) := handle en e in NVis o en' (Ret x).
Proof. reflexivity. Qed.

(** [runs] and [emits] only look at a tree through [step]. *)
Lemma runs_step_eq {R} en (t1 t2 : itree glfwE R) tr en' r :
  step en t1 = step en t2 -> runs en t1 tr en' r -> runs en t2 tr en' r.
Proof.
  intros E H. inversion H; subst; rewrite E in *; econstructor; eassumption.
Qed.

Lemma emits_step_eq {R} en (t1 t2 : itree glfwE R) tr :
  step en t1 = step en t2 -> emits en t1 tr -> emits en t2 tr.
Proof.
  intros E H. inversion H; subst; [constructor | rewrite E in *; econstructor; eassumption..].
Qed.

Lemma runs_deterministic {R} en (t : itree glfwE R) tr en' r tr2 en2 r2 :
  runs en t tr en' r -> runs en t tr2 en2 r2 -> tr = tr2 /\ en' = en2 /\ r = r2.
Proof.
  intros H. revert tr2 en2 r2.
  induction H as [en t r E|en t u tr en' r E _ IH|en t o en1 u tr en' r E _ IH];
    intros tr2 en2 r2 H2; inversion H2; subst; rewrite E in *; try discriminate.
  - injection H as ->. auto.
  - injection H as ->. apply IH. assumption.
  - injection H as -> -> ->. destruct (IH _ _ _ H0) as (-> & -> & ->). auto.
Qed.

Lemma runs_bind {R S} en (t : itree glfwE R) (k : R -> itree glfwE S) tr1 en1 r1 tr2 en2 r2 :
  runs en t tr1 en1 r1 -> runs en1 (k r1) tr2 en2 r2 ->
  runs en (ITree.bind t k) (tr1 ++ tr2) en2 r2.
Proof.
  induction 1 as [en t r E|en t u tr en' r E _ IH|en t o en1' u tr en' r E _ IH]; intros H2.
  - apply (runs_step_eq _ (k r)); [rewrite step_bind, E; reflexivity | exact H2].
  - eapply runs_tau; [rewrite step_bind, E; reflexivity | exact (IH H2)].
  - eapply runs_vis; [rewrite step_bind, E; reflexivity | exact (IH H2)].
Qed.

Lemma runs_bind_inv {R S} en (t : itree glfwE R) (k : R -> itree glfwE S) tr en2 r2 :
  runs en (ITree.bind t k) tr en2 r2 ->
  exists tr1 en1 r1 tr2, runs en t tr1 en1 r1 /\ runs en1 (k r1) tr2 en2 r2 /\ tr = tr1 ++ tr2.
Proof.
  remember (ITree.bind t k) as bt eqn:Ebt. intros H. revert t Ebt.
  induction H as [en t' r E|en t' u tr en' r E H IH|en t' o en1 u tr en' r E H IH];
    intros t ->; rewrite step_bind in E; destruct (step en t) as [r1|u1|o1 en0 u1] eqn:Et;
    try discriminate.
  - exists [], en, r1, []. split; [constructor; exact Et | split; [constructor; exact E | reflexivity]].
  - exists [], en, r1, tr. split; [constructor; exact Et|]. split; [|reflexivity].
    eapply runs_tau; eassumption.
  - injection E as <-. destruct (IH u1 eq_refl) as (tr1 & en1 & r0 & tr2 & H1 & H2 & ->).
    exists tr1, en1, r0, tr2. split; [eapply runs_tau; eassumption | auto].
  - exists [], en, r1, (o :: tr). split; [constructor; exact Et|]. split; [|reflexivity].
    eapply runs_vis; eassumption.
  - injection E as <- <- <-. destruct (IH u1 eq_refl) as (tr1 & en3 & r0 & tr2 & H1 & H2 & ->).
    exists (o1 :: tr1), en3, r0, tr2. split; [eapply runs_vis; eassumption | auto].
Qed.

Lemma emits_bind_l {R S} en (t : itree glfwE R) (k : R -> itree glfwE S) tr :
  emits en t tr -> emits en (ITree.bind t k) tr.
Proof.
  induction 1 as [en t|en t u tr E _ IH|en t o en1 u tr E _ IH]; [constructor| |].
  - eapply emits_tau; [rewrite step_bind, E; reflexivity | exact IH].
  - eapply emits_vis; [rewrite step_bind, E; reflexivity | exact IH].
Qed.

Lemma emits_bind_r {R S} en (t : itree glfwE R) (k : R -> itree glfwE S) tr1 en1 r1 tr2 :
  runs en t tr1 en1 r1 -> emits en1 (k r1) tr2 -> emits en (ITree.bind t k) (tr1 ++ tr2).
Proof.
  induction 1 as [en t r E|en t u tr en' r E _ IH|en t o en1' u tr en' r E _ IH]; intros H2.
  - apply (emits_step_eq _ (k r)); [rewrite step_bind, E; reflexivity | exact H2].
  - eapply emits_tau; [rewrite step_bind, E; reflexivity | exact (IH H2)].
  - eapply emits_vis; [rewrite step_bind, E; reflexivity | exact (IH H2)].
Qed.

Lemma runs_ret_tt {R} en (r : R) : runs en (Ret r) [] en r.
Proof. constructor. reflexivity. Qed.

Lemma runs_trigger {X} en (e : glfwE X) :
  runs en (trigger e) [snd (handle en e)] (snd (fst (handle en e))) (fst (fst (handle en e))).
Proof.
  eapply runs_vis; [|apply runs_ret_tt]. rewrite step_trigger.
  destruct (handle en e) as [[x en'] o]. reflexivity.
Qed.

Lemma runs_tau_inv {R} en (t : itree glfwE R) tr en' r : runs en (Tau t) tr en' r -> runs en t tr en' r.
Proof. intros H. inversion H; subst; cbn in *; congruence. Qed.

Lemma with_ctx_ctx en : with_ctx en (ctx en) = en.
Proof. destruct en; reflexivity. Qed.

Lemma ctx_with_ctx en s : ctx (with_ctx en s) = s.
Proof. reflexivity. Qed.

Lemma runs_emit en cs :
  runs en (emit cs) (map OGl cs) (with_ctx en (GL.exec_all (ctx en) cs)) tt.
Proof.
  revert en. induction cs as [|c cs IH]; intros en.
  - cbn. rewrite with_ctx_ctx. apply runs_ret_tt.
  - cbn [emit fold_right map]. fold (emit cs).
    replace (with_ctx en (GL.exec_all (ctx en) (c :: cs)))
      with (with_ctx (with_ctx en (GL.exec (ctx en) c)) (GL.exec_all (GL.exec (ctx en) c) cs))
      by (destruct en; reflexivity).
    change (OGl c :: map OGl cs) with ([OGl c] ++ map OGl cs).
    exact (runs_bind _ _ _ _ _ _ _ _ _ (runs_trigger en (gl c)) (IH _)).
Qed.

Lemma runs_trigger_eq {X} en (e : glfwE X) x en' o :
  handle en e = (x, en', o) -> runs en (trigger e) [o] en' x.
Proof. intros H. pose proof (runs_trigger en e) as R. rewrite H in R. exact R. Qed.

(** Once the first part of a [bind] is known to run, the rest of the
    run is a run of the continuation. *)
Lemma runs_bind_known {R S} en (t : itree glfwE R) (k : R -> itree glfwE S) tr0 en0 r0 tr en2 r :
  runs en t tr0 en0 r0 -> runs en (ITree.bind t k) tr en2 r ->
  exists tr', runs en0 (k r0) tr' en2 r /\ tr = tr0 ++ tr'.
Proof.
  intros H0 H. apply runs_bind_inv in H as (tr1 & en1 & r1 & tr2 & H1 & H2 & ->).
  destruct (runs_deterministic _ _ _ _ _ _ _ _ H1 H0) as (-> & -> & ->). eauto.
Qed.

Lemma handle_close en : open_frames en = Some O ->
  handle en glfw_window_should_close = (true, en, OShouldClose true).
Proof. intros H. cbn. rewrite H. reflexivity. Qed.

Lemma handle_continue en n : open_frames en = Some (S n) ->
  handle en glfw_window_should_close = (false, with_open en (Some n), OShouldClose false).
Proof. intros H. cbn. rewrite H. reflexivity. Qed.

Lemma handle_never en : open_frames en = None ->
  handle en glfw_window_should_close = (false, en, OShouldClose false).
Proof. intros H. cbn. rewrite H. reflexivity. Qed.

(** The trace of one frame of the window loop. *)
Definition frame_trace (frame : list GL.cmd) (s : GL.state) : list obs :=
  OShouldClose false :: map OGl frame ++ [OSwap (GL.frame (GL.exec_all s frame)); OPoll].

Lemma runs_body_continue en en1 frame :
  handle en glfw_window_should_close = (false, en1, OShouldClose false) ->
  runs en (loop_body frame tt) (frame_trace frame (ctx en1))
       (with_ctx en1 (GL.with_frame (GL.exec_all (ctx en1) frame) [])) (inl tt).
Proof.
  intros H. unfold loop_body, frame_trace.
  change (OShouldClose false :: ?l) with ([OShouldClose false] ++ l).
  eapply runs_bind; [exact (runs_trigger_eq _ _ _ _ _ H)|]. cbn beta iota.
  change (map OGl frame ++ [?a; ?b]) with (map OGl frame ++ ([a] ++ ([b] ++ []))).
  eapply runs_bind; [apply runs_emit|].
  eapply runs_bind; [apply runs_trigger_eq; reflexivity|].
  eapply runs_bind; [apply runs_trigger_eq; reflexivity | apply runs_ret_tt].
Qed.

Lemma runs_body_close en frame :
  open_frames en = Some O -> runs en (loop_body frame tt) [OShouldClose true] en (inr tt).
Proof.
  intros H. unfold loop_body. rewrite <- (app_nil_r [OShouldClose true]).
  eapply runs_bind; [exact (runs_trigger_eq _ _ _ _ _ (handle_close en H)) | apply runs_ret_tt].
Qed.

Lemma step_render_loop en frame :
  step en (render_loop frame) =
  step en (ITree.bind (loop_body frame tt)
             (fun lr => match lr with inl l => Tau (ITree.iter (loop_body frame) l)
                                 | inr r => Ret r end)).
Proof. reflexivity. Qed.

Lemma swaps_app a b : swaps (a ++ b) = swaps a ++ swaps b.
Proof. unfold swaps. apply flat_map_app. Qed.

Lemma swaps_map_gl cs : swaps (map OGl cs) = [].
Proof. induction cs; [reflexivity | exact IHcs]. Qed.

Lemma swaps_frame_trace frame s : swaps (frame_trace frame s) = [GL.frame (GL.exec_all s frame)].
Proof.
  unfold frame_trace. change (swaps (OShouldClose false :: ?l)) with (swaps l).
  rewrite swaps_app, swaps_map_gl. reflexivity.
Qed.

Lemma runs_emit_prints en ls : runs en (emit_prints ls) (map OPrint ls) en tt.
Proof.
  induction ls as [|l ls IH]; [apply runs_ret_tt|].
  cbn [emit_prints fold_right map]. fold (emit_prints ls).
  change (OPrint l :: map OPrint ls) with ([OPrint l] ++ map OPrint ls).
  eapply runs_bind; [apply runs_trigger_eq; reflexivity | exact IH].
Qed.

(** The usual prologue: OpenGL set-up calls, then the [print]s. *)
Lemma runs_setup_prints en setup ls :
  runs en (ITree.bind (emit setup) (fun _ => emit_prints ls)) (map OGl setup ++ map OPrint ls)
       (with_ctx en (GL.exec_all (ctx en) setup)) tt.
Proof. eapply runs_bind; [apply runs_emit | apply runs_emit_prints]. Qed.

(** When a frame leaves the context as it found it (up to the frame
    buffer), every later frame shows the same picture. *)
Lemma pictures_fix n frame s :
  GL.with_frame (GL.exec_all s frame) [] = s ->
  pictures n frame s = repeat (GL.frame (GL.exec_all s frame)) n.
Proof.
  intros H. induction n as [|n IH]; [reflexivity|]. cbn [pictures repeat]. rewrite H, IH. reflexivity.
Qed.

(** ** The window loop *)

(** The window loop closed by the user after [n] frames: it shows [n]
    frames, each drawn from the context the previous one left, then asks
    once more and stops. *)
Lemma render_loop_runs frame n en :
  open_frames en = Some n ->
  runs en (render_loop frame) (fst (loop_trace n frame (ctx en)))
       (with_open (with_ctx en (snd (loop_trace n frame (ctx en)))) (Some O)) tt.
Proof.
  revert en. induction n as [|n IH]; intros en Hn;
    apply (runs_step_eq _ _ _ _ _ _ (eq_sym (step_render_loop en frame))).
  - cbn [loop_trace fst snd]. rewrite <- (app_nil_r [OShouldClose true]).
    replace (with_open (with_ctx en (ctx en)) (Some O)) with en
      by (destruct en; cbn in *; subst; reflexivity).
    eapply runs_bind; [apply runs_body_close, Hn | apply runs_ret_tt].
  - cbn [loop_trace].
    destruct (loop_trace n frame (GL.with_frame (GL.exec_all (ctx en) frame) [])) as [tr s'] eqn:E.
    cbn [fst snd]. rewrite !app_comm_cons, app_assoc.
    eapply runs_bind; [apply (runs_body_continue en _ frame (handle_continue en n Hn))|].
    eapply runs_tau; [reflexivity|]. cbn [ctx with_open].
    specialize (IH (with_ctx (with_open en (Some n))
                      (GL.with_frame (GL.exec_all (ctx en) frame) [])) eq_refl).
    cbn [ctx with_ctx] in IH. rewrite E in IH. exact IH.
Qed.

Lemma render_loop_diverges frame en tr en' r :
  open_frames en = None -> ~ runs en (render_loop frame) tr en' r.
Proof.
  intros Hn H. remember (length tr) as m eqn:Em. revert en tr Hn H Em.
  induction m as [m IH] using (well_founded_induction lt_wf). intros en tr Hn H ->.
  apply (runs_step_eq _ _ _ _ _ _ (step_render_loop en frame)) in H.
  destruct (runs_bind_known _ _ _ _ _ _ _ _ _
              (runs_body_continue en en frame (handle_never en Hn)) H) as (tr2 & H2 & ->).
  apply runs_tau_inv in H2.
  refine (IH (length tr2) _ _ tr2 _ H2 eq_refl); [|exact Hn].
  unfold frame_trace. rewrite length_app. cbn. lia.
Qed.

Lemma render_loop_emits frame en n :
  open_frames en = None ->
  exists tr, emits en (render_loop frame) tr /\ swaps tr = pictures n frame (ctx en).
Proof.
  revert en. induction n as [|n IH]; intros en Hn.
  - exists []. split; [constructor | reflexivity].
  - destruct (IH (with_ctx en (GL.with_frame (GL.exec_all (ctx en) frame) []))) as [tr [He Hs]];
      [exact Hn|].
    exists (frame_trace frame (ctx en) ++ tr). split.
    + apply (emits_step_eq _ _ _ _ (eq_sym (step_render_loop en frame))).
      eapply emits_bind_r; [exact (runs_body_continue en en frame (handle_never en Hn))|].
      eapply emits_tau; [reflexivity | exact He].
    + rewrite swaps_app, swaps_frame_trace, Hs. reflexivity.
Qed.

(** The pictures of a window loop whose frame clears and draws point
    sets: the first is cleared with the clear colour the context had,
    the later ones with the colour the frame sets. *)
Lemma pictures_points_frame n s bg data :
  GL.idle s ->
  pictures (S n) (GL.points_frame bg data) s =
  (GL.Cleared (GL.clear_color s) :: GL.drawn_points (GL.point_size s) (GL.line_width s) data) ::
  repeat (GL.Cleared bg :: GL.drawn_points (GL.point_size s) (GL.line_width s) data) n.
Proof.
  intros Hs. cbn [pictures]. rewrite (pictures_fix _ _ _ (GL.points_frame_fix s bg data Hs)).
  rewrite !GL.exec_points_frame by (try rewrite GL.exec_points_frame by exact Hs;
                                    destruct s; unfold GL.idle in *; cbn in *; tauto).
  destruct s, bg; reflexivity.
Qed.

Lemma swaps_loop_trace n frame s : swaps (fst (loop_trace n frame s)) = pictures n frame s.
Proof.
  revert s. induction n as [|n IH]; intros s; [reflexivity|]. cbn [loop_trace pictures].
  destruct (loop_trace n frame _) as [tr s'] eqn:E. cbn [fst].
  specialize (IH (GL.with_frame (GL.exec_all s frame) [])). rewrite E in IH. cbn [fst] in IH.
  rewrite app_comm_cons, app_assoc, swaps_app, IH.
  exact (f_equal (fun l => l ++ _) (swaps_frame_trace frame s)).
Qed.

Lemma swaps_map_print ls : swaps (map OPrint ls) = [].
Proof. induction ls; [reflexivity | exact IHls]. Qed.

(** ** The shell *)

Lemma glfw_main_runs w h title body en tr en1 :
  init_ok en = true -> window_ok en = true -> runs en body tr en1 tt ->
  runs en (glfw_main w h title body)
       ([OInit true; OCreateWindow w h title true; OContext] ++ tr ++ [OTerminate]) en1 tt.
Proof.
  intros Hi Hw Hb. unfold glfw_main.
  change ([?a; ?b; ?c] ++ ?l) with ([a] ++ ([b] ++ ([c] ++ l))).
  eapply runs_bind; [apply runs_trigger_eq; cbn; rewrite Hi; reflexivity|]. cbn beta iota.
  eapply runs_bind; [apply runs_trigger_eq; cbn; rewrite Hw; reflexivity|]. cbn beta iota.
  eapply runs_bind; [apply runs_trigger_eq; reflexivity|].
  eapply runs_bind; [exact Hb | apply runs_trigger_eq; reflexivity].
Qed.

Lemma run_sound {R} fuel en (t : itree glfwE R) tr en' r :
  run fuel en t = (tr, Some (en', r)) -> runs en t tr en' r.
Proof.
  revert en t tr. induction fuel as [|f IH]; intros en t tr H; [discriminate|].
  cbn in H. destruct (step en t) as [r0|u|o en1 u] eqn:E.
  - injection H as <- <- <-. constructor. exact E.
  - eapply runs_tau; [exact E | exact (IH _ _ _ H)].
  - destruct (run f en1 u) as [tr1 res] eqn:E1. injection H as <- ->.
    eapply runs_vis; [exact E | exact (IH _ _ _ E1)].
Qed.

(** A program whose prologue is set-up calls and [print]s and whose frame
    clears and draws point sets: when the window is closed after [n + 1]
    frames it returns, having shown these pictures. *)
Lemma points_main_frames w h title setup ls bg data en n :
  init_ok en = true -> window_ok en = true -> open_frames en = Some (S n) ->
  GL.idle (GL.exec_all (ctx en) setup) ->
  let s := GL.exec_all (ctx en) setup in
  exists tr en',
    runs en (glfw_main w h title
               (ITree.bind (ITree.bind (emit setup) (fun _ => emit_prints ls))
                           (fun _ => render_loop (GL.points_frame bg data)))) tr en' tt /\
    swaps tr =
      (GL.Cleared (GL.clear_color s) :: GL.drawn_points (GL.point_size s) (GL.line_width s) data) ::
      repeat (GL.Cleared bg :: GL.drawn_points (GL.point_size s) (GL.line_width s) data) n.
Proof.
  intros Hi Hw Hn Hs s. do 2 eexists. split.
  - apply glfw_main_runs; [exact Hi | exact Hw|].
    eapply runs_bind; [apply runs_setup_prints | apply render_loop_runs; exact Hn].
  - rewrite !swaps_app, swaps_map_gl, swaps_map_print, swaps_loop_trace. cbn [ctx with_ctx].
    rewrite pictures_points_frame by exact Hs.
    cbn [swaps flat_map app]. rewrite app_nil_r. reflexivity.
Qed.

(** ** Theorems of the shell *)

(** C26 (error). When [glfw.init()] fails, [main] returns at once: the
    only event of the run is the failed initialisation; no window, no
    OpenGL call, no [glfw.terminate()]. *)
Theorem glfw_main_init_fails w h title body en :
  init_ok en = false -> runs en (glfw_main w h title body) [OInit false] en tt.
Proof.
  intros Hi. unfold glfw_main. rewrite <- (app_nil_r [OInit false]).
  eapply runs_bind; [apply runs_trigger_eq; cbn; rewrite Hi; reflexivity | apply runs_ret_tt].
Qed.

(** C27 (error). When the window cannot be created, [main] calls
    [glfw.terminate()] and returns: the run is the initialisation, the
    failed [create_window] and the termination, with no OpenGL call. *)
Theorem glfw_main_no_window w h title body en :
  init_ok en = true -> window_ok en = false ->
  runs en (glfw_main w h title body)
       [OInit true; OCreateWindow w h title false; OTerminate] en tt.
Proof.
  intros Hi Hw. unfold glfw_main.
  change [?a; ?b; ?c] with ([a] ++ ([b] ++ [c])).
  eapply runs_bind; [apply runs_trigger_eq; cbn; rewrite Hi; reflexivity|]. cbn beta iota.
  eapply runs_bind; [apply runs_trigger_eq; cbn; rewrite Hw; reflexivity|]. cbn beta iota.
  apply runs_trigger_eq. reflexivity.
Qed.

(** C28 (functional). When the user closes the window after [n] frames,
    a [main] whose body is a terminating prologue followed by the window
    loop returns after the initialisation, the prologue, [n] frames each
    drawn from the context the previous one left, a last
    [window_should_close], and [glfw.terminate()]. *)
Theorem glfw_main_closes w h title prologue frame en trp en1 n :
  init_ok en = true -> window_ok en = true ->
  runs en prologue trp en1 tt -> open_frames en1 = Some n ->
  runs en (glfw_main w h title (ITree.bind prologue (fun _ => render_loop frame)))
       ([OInit true; OCreateWindow w h title true; OContext] ++
        (trp ++ fst (loop_trace n frame (ctx en1))) ++ [OTerminate])
       (with_open (with_ctx en1 (snd (loop_trace n frame (ctx en1)))) (Some O)) tt.
Proof.
  intros Hi Hw Hp Hn. apply glfw_main_runs; [exact Hi | exact Hw|].
  eapply runs_bind; [exact Hp | exact (render_loop_runs frame n en1 Hn)].
Qed.

(** C29 (liveness). When the user never closes the window, such a [main]
    never returns, and it goes on showing frames: for every [n] some
    finite prefix of its run has shown exactly the prologue's pictures
    and then the first [n] frames of the loop. *)
Theorem glfw_main_never_closed w h title prologue frame en trp en1 :
  init_ok en = true -> window_ok en = true ->
  runs en prologue trp en1 tt -> open_frames en1 = None ->
  (forall tr en' r,
      ~ runs en (glfw_main w h title (ITree.bind prologue (fun _ => render_loop frame))) tr en' r) /\
  (forall n, exists tr,
      emits en (glfw_main w h title (ITree.bind prologue (fun _ => render_loop frame))) tr /\
      swaps tr = swaps trp ++ pictures n frame (ctx en1)).
Proof.
  intros Hi Hw Hp Hn. unfold glfw_main.
  assert (Hin : runs en (trigger glfw_init) [OInit true] en true)
    by (apply runs_trigger_eq; cbn; rewrite Hi; reflexivity).
  assert (Hwin : runs en (trigger (glfw_create_window w h title))
                   [OCreateWindow w h title true] en true)
    by (apply runs_trigger_eq; cbn; rewrite Hw; reflexivity).
  assert (Hctx : runs en (trigger glfw_make_context_current) [OContext] en tt)
    by (apply runs_trigger_eq; reflexivity).
  split.
  - intros tr en' r H.
    destruct (runs_bind_known _ _ _ _ _ _ _ _ _ Hin H) as (tr1 & H1 & _). cbn beta iota in H1.
    destruct (runs_bind_known _ _ _ _ _ _ _ _ _ Hwin H1) as (tr2 & H2 & _). cbn beta iota in H2.
    destruct (runs_bind_known _ _ _ _ _ _ _ _ _ Hctx H2) as (tr3 & H3 & _).
    apply runs_bind_inv in H3 as (tr4 & en4 & r4 & _ & H4 & _ & _).
    destruct (runs_bind_known _ _ _ _ _ _ _ _ _ Hp H4) as (tr5 & H5 & _).
    exact (render_loop_diverges frame en1 tr5 en4 r4 Hn H5).
  - intros n. destruct (render_loop_emits frame en1 n Hn) as [trl [He Hs]].
    exists ([OInit true] ++ [OCreateWindow w h title true] ++ [OContext] ++ trp ++ trl). split.
    + eapply emits_bind_r; [exact Hin|]. cbn beta iota.
      eapply emits_bind_r; [exact Hwin|]. cbn beta iota.
      eapply emits_bind_r; [exact Hctx|]. apply emits_bind_l.
      eapply emits_bind_r; [exact Hp | exact He].
    + rewrite !swaps_app, Hs. reflexivity.
Qed.

(** ** Witnesses *)

(** An environment with a fresh context, and a one-call frame. *)
Definition demo_env (i w : bool) (n : option nat) : env := mk_env i w n GL.initial.
Definition demo_frame : list GL.cmd := [GL.glClear GL.GL_COLOR_BUFFER_BIT].

Lemma glfw_main_init_fails_witness :
  init_ok (demo_env false true None) = false /\
  runs (demo_env false true None) (glfw_main 800 600 String.EmptyString (render_loop demo_frame))
       [OInit false] (demo_env false true None) tt.
Proof. split; [reflexivity | apply glfw_main_init_fails; reflexivity]. Defined.

Lemma glfw_main_no_window_witness :
  init_ok (demo_env true false None) = true /\ window_ok (demo_env true false None) = false /\
  runs (demo_env true false None) (glfw_main 800 600 String.EmptyString (render_loop demo_frame))
       [OInit true; OCreateWindow 800 600 String.EmptyString false; OTerminate]
       (demo_env true false None) tt.
Proof. split; [reflexivity | split; [reflexivity | apply glfw_main_no_window; reflexivity]]. Defined.

Lemma glfw_main_closes_witness :
  let en := demo_env true true (Some 1%nat) in
  let en1 := with_ctx en (GL.exec_all (ctx en) demo_frame) in
  init_ok en = true /\ window_ok en = true /\
  runs en (emit demo_frame) (map OGl demo_frame) en1 tt /\ open_frames en1 = Some 1%nat /\
  runs en (glfw_main 800 600 String.EmptyString
             (ITree.bind (emit demo_frame) (fun _ => render_loop demo_frame)))
       ([OInit true; OCreateWindow 800 600 String.EmptyString true; OContext] ++
        (map OGl demo_frame ++ fst (loop_trace 1 demo_frame (ctx en1))) ++ [OTerminate])
       (with_open (with_ctx en1 (snd (loop_trace 1 demo_frame (ctx en1)))) (Some O)) tt.
Proof.
  intros en en1. split; [reflexivity|]. split; [reflexivity|].
  split; [apply runs_emit|]. split; [reflexivity|].
  apply glfw_main_closes; [reflexivity | reflexivity | apply runs_emit | reflexivity].
Defined.

Lemma glfw_main_never_closed_witness :
  let en := demo_env true true None in
  let en1 := with_ctx en (GL.exec_all (ctx en) demo_frame) in
  init_ok en = true /\ window_ok en = true /\
  runs en (emit demo_frame) (map OGl demo_frame) en1 tt /\ open_frames en1 = None /\
  ((forall tr en' r,
       ~ runs en (glfw_main 800 600 String.EmptyString
                    (ITree.bind (emit demo_frame) (fun _ => render_loop demo_frame))) tr en' r) /\
   (forall n, exists tr,
       emits en (glfw_main 800 600 String.EmptyString
                   (ITree.bind (emit demo_frame) (fun _ => render_loop demo_frame))) tr /\
       swaps tr = swaps (map OGl demo_frame) ++ pictures n demo_frame (ctx en1))).
Proof.
  intros en en1. split; [reflexivity|]. split; [reflexivity|].
  split; [apply runs_emit|]. split; [reflexivity|].
  apply glfw_main_never_closed; [reflexivity | reflexivity | apply runs_emit | reflexivity].
Defined.

End Shell.
