(* ===== verification/Bresenham.v ===== *)
(** * Bresenham's line algorithm ([src/bresenham.py], [bresenham_line])

    The loop state of the Python function is the record [state]
    ([x], [y], the decision parameter [p] and the [points] list it
    appends to).  The two [for] loops of the source are [step_x_major]
    (the [dx > dy] branch, lines 19-28) and [step_y_major] (the [else]
    branch, lines 34-43), each one iteration of its loop body.

    The main theorem, [bresenham_line_spec], shows that the incremental
    integer loop computes a closed form: the [k]-th pixel sits [k] steps
    along the driving axis and [minor_offset] steps along the other,
    where [minor_offset] is [k * dmin / dmax] rounded to nearest with
    ties away from the start.  Length, endpoints, closeness to the ideal
    segment and 8-connectivity follow from the closed form. *)

From Stdlib Require Import ZArith Lia List.
From S2P Require Import Prelude.
Import ListNotations.
Open Scope Z_scope.

Module Bresenham.

(** ** The model *)

Record state := mk_state { x : Z; y : Z; p : Z; points : list point }.

(** One iteration of the [dx > dy] loop (lines 19-28). *)
Definition step_x_major (dx dy x_step y_step : Z) (s : state) : state :=
  let pts := append (points s) (x s, y s) in
  if p s >=? 0
  then mk_state (x s + x_step) (y s + y_step) (p s + 2 * (dy - dx)) pts
  else mk_state (x s + x_step) (y s) (p s + 2 * dy) pts.

(** One iteration of the [else] loop (lines 34-43). *)
Definition step_y_major (dx dy x_step y_step : Z) (s : state) : state :=
  let pts := append (points s) (x s, y s) in
  if p s >=? 0
  then mk_state (x s + x_step) (y s + y_step) (p s + 2 * (dx - dy)) pts
  else mk_state (x s) (y s + y_step) (p s + 2 * dx) pts.

(** [bresenham_line(x1, y1, x2, y2)] (lines 4-45). *)
Definition bresenham_line (x1 y1 x2 y2 : Z) : list point :=
  let dx := Z.abs (x2 - x1) in
  let dy := Z.abs (y2 - y1) in
  let x_step := if x2 >? x1 then 1 else -1 in
  let y_step := if y2 >? y1 then 1 else -1 in
  if dx >? dy then
    points (for_range (Z.to_nat (dx + 1)) (step_x_major dx dy x_step y_step)
              (mk_state x1 y1 (2 * dy - dx) []))
  else
    points (for_range (Z.to_nat (dy + 1)) (step_y_major dx dy x_step y_step)
              (mk_state x1 y1 (2 * dx - dy) [])).

(** ** The closed form *)

(** Offset along the minor axis of the pixel [k] steps along the driving
    axis: [round(k * dmin / dmax)] with ties rounded up. *)
Definition minor_offset (dmax dmin k : Z) : Z := (2 * k * dmin + dmax) / (2 * dmax).

Definition bresenham_spec (x1 y1 x2 y2 : Z) : list point :=
  let dx := Z.abs (x2 - x1) in
  let dy := Z.abs (y2 - y1) in
  let x_step := if x2 >? x1 then 1 else -1 in
  let y_step := if y2 >? y1 then 1 else -1 in
  if dx >? dy then
    map (fun k => (x1 + x_step * k, y1 + y_step * minor_offset dx dy k))
        (zseq (Z.to_nat (dx + 1)))
  else
    map (fun k => (x1 + x_step * minor_offset dy dx k, y1 + y_step * k))
        (zseq (Z.to_nat (dy + 1))).

(** ** Lemmas on the closed form *)

Section MinorOffset.
Context (dmax dmin : Z) (Hmax : 0 < dmax) (Hmin : 0 <= dmin <= dmax).

(** The offset is the nearest integer to [k * dmin / dmax]. *)
Lemma minor_offset_bounds k :
  - dmax <= 2 * (k * dmin - minor_offset dmax dmin k * dmax) < dmax.
Proof using Hmax. unfold minor_offset. Z.div_mod_to_equations. nia. Qed.

(** The offset advances by one exactly when the decision parameter of
    the source is non-negative. *)
Lemma minor_offset_succ k :
  minor_offset dmax dmin (k + 1) =
    if 2 * dmin * (k + 1) - dmax * (2 * minor_offset dmax dmin k + 1) >=? 0
    then minor_offset dmax dmin k + 1 else minor_offset dmax dmin k.
Proof.
  pose proof (minor_offset_bounds k) as Hk.
  pose proof (minor_offset_bounds (k + 1)) as Hk1.
  destruct (Z.geb_spec (2 * dmin * (k + 1) - dmax * (2 * minor_offset dmax dmin k + 1)) 0);
    nia.
Qed.

Lemma minor_offset_step k :
  minor_offset dmax dmin (k + 1) = minor_offset dmax dmin k \/
  minor_offset dmax dmin (k + 1) = minor_offset dmax dmin k + 1.
Proof. rewrite minor_offset_succ. destruct (_ >=? 0); auto. Qed.

Lemma minor_offset_0 : minor_offset dmax dmin 0 = 0.
Proof. unfold minor_offset. rewrite Z.mul_0_r, Z.mul_0_l, Z.add_0_l.
       apply Z.div_small. lia. Qed.

Lemma minor_offset_last : minor_offset dmax dmin dmax = dmin.
Proof. pose proof (minor_offset_bounds dmax). nia. Qed.
End MinorOffset.

(** A zero-length driving axis has offset 0 (Rocq's [_ / 0 = 0]); the
    source only uses it at [k = 0]. *)
Lemma minor_offset_degenerate dmin k : minor_offset 0 dmin k = 0.
Proof. unfold minor_offset. rewrite Z.mul_0_r. apply Z.div_0_r. Qed.

(** ** The loop computes the closed form *)

Section XMajor.
Context (x1 y1 dx dy x_step y_step : Z) (Hdx : 0 < dx) (Hdy : 0 <= dy <= dx).

Definition x_major_pixel (k : Z) : point :=
  (x1 + x_step * k, y1 + y_step * minor_offset dx dy k).

(** The state after [n] iterations of the [dx > dy] loop. *)
Lemma x_major_loop n :
  for_range n (step_x_major dx dy x_step y_step) (mk_state x1 y1 (2 * dy - dx) []) =
  let k := Z.of_nat n in
  mk_state (x1 + x_step * k) (y1 + y_step * minor_offset dx dy k)
           (2 * dy * (k + 1) - dx * (2 * minor_offset dx dy k + 1))
           (map x_major_pixel (zseq n)).
Proof.
  induction n as [|n IH].
  - simpl. rewrite minor_offset_0 by lia. f_equal; lia.
  - rewrite for_range_S_r, IH, zseq_S, map_app. cbv zeta.
    unfold step_x_major, append; cbn [x y p points].
    replace (Z.of_nat (S n)) with (Z.of_nat n + 1) by lia.
    rewrite (minor_offset_succ dx dy Hdx Hdy (Z.of_nat n)).
    destruct (_ >=? 0); f_equal; lia.
Qed.
End XMajor.

Definition swap (q : point) : point := (snd q, fst q).

Definition swap_state (s : state) : state :=
  mk_state (y s) (x s) (p s) (map swap (points s)).

(** The [else] loop is the [dx > dy] loop with the axes exchanged. *)
Lemma step_y_major_swap dx dy x_step y_step s :
  step_y_major dx dy x_step y_step (swap_state s) =
  swap_state (step_x_major dy dx y_step x_step s).
Proof.
  unfold step_y_major, step_x_major, swap_state, append; cbn [x y p points].
  destruct (p s >=? 0); cbn [x y p points]; rewrite map_app; reflexivity.
Qed.

(** The loops compute the closed form (the proof behind the refinement
    theorem [bresenham_line_spec] below). *)
Lemma bresenham_line_closed_form x1 y1 x2 y2 :
  bresenham_line x1 y1 x2 y2 = bresenham_spec x1 y1 x2 y2.
Proof.
  unfold bresenham_line, bresenham_spec. cbv zeta.
  set (dx := Z.abs (x2 - x1)). set (dy := Z.abs (y2 - y1)).
  set (xs := if x2 >? x1 then 1 else -1). set (ys := if y2 >? y1 then 1 else -1).
  destruct (Z.gtb_spec dx dy) as [Hlt|Hge].
  - rewrite x_major_loop by lia. reflexivity.
  - destruct (Z.eq_dec dy 0) as [H0|H0].
    + assert (dx = 0) by lia. clearbody dx dy xs ys. subst dx dy. simpl.
      rewrite !Z.mul_0_r, !Z.add_0_r. reflexivity.
    + replace (mk_state x1 y1 (2 * dx - dy) [])
        with (swap_state (mk_state y1 x1 (2 * dx - dy) [])) by reflexivity.
      rewrite (for_range_commute swap_state _ _ (step_y_major_swap dx dy xs ys)).
      rewrite x_major_loop by lia. cbn [points swap_state].
      rewrite map_map. reflexivity.
Qed.


(** C1 (refinement). The integer decision-parameter loops of
    [bresenham_line] compute exactly the closed form [bresenham_spec]:
    pixel [k] is [k] steps along the driving axis and
    [round(k * dmin / dmax)] (ties away from the start) along the other. *)
Theorem bresenham_line_spec x1 y1 x2 y2 :
  bresenham_line x1 y1 x2 y2 = bresenham_spec x1 y1 x2 y2.
Proof. exact (bresenham_line_closed_form x1 y1 x2 y2). Qed.

(** ** Consequences of the closed form *)

(** The step direction chosen by the source times the distance is the
    signed difference, also when the two coordinates are equal. *)
Lemma step_times_abs a b : (if b >? a then 1 else -1) * Z.abs (b - a) = b - a.
Proof. destruct (Z.gtb_spec b a); lia. Qed.

Lemma step_cases a b : (if b >? a then 1 else -1) = 1 \/ (if b >? a then 1 else -1) = -1.
Proof. destruct (b >? a); auto. Qed.

#[local] Hint Rewrite step_times_abs : raster_simpl.

(** C2 (functional). The line has one pixel per unit step of the driving
    axis: [max(|dx|, |dy|) + 1] pixels. *)
Theorem bresenham_line_length x1 y1 x2 y2 :
  length (bresenham_line x1 y1 x2 y2) =
  Z.to_nat (Z.max (Z.abs (x2 - x1)) (Z.abs (y2 - y1)) + 1).
Proof.
  rewrite bresenham_line_closed_form. unfold bresenham_spec. cbv zeta.
  destruct (Z.gtb_spec (Z.abs (x2 - x1)) (Z.abs (y2 - y1)));
    rewrite length_map, length_zseq; lia.
Qed.

Lemma bresenham_first_last x1 y1 x2 y2 :
  hd (0, 0) (bresenham_line x1 y1 x2 y2) = (x1, y1) /\
  last (bresenham_line x1 y1 x2 y2) (0, 0) = (x2, y2).
Proof.
  rewrite bresenham_line_closed_form. unfold bresenham_spec. cbv zeta.
  pose proof (step_times_abs x1 x2). pose proof (step_times_abs y1 y2).
  destruct (Z.gtb_spec (Z.abs (x2 - x1)) (Z.abs (y2 - y1))) as [Hlt|Hge].
  - replace (Z.to_nat (Z.abs (x2 - x1) + 1)) with (S (Z.to_nat (Z.abs (x2 - x1)))) by lia.
    rewrite hd_map_zseq, last_map_zseq by lia.
    rewrite minor_offset_0, Z2Nat.id, minor_offset_last by lia.
    split; f_equal; lia.
  - replace (Z.to_nat (Z.abs (y2 - y1) + 1)) with (S (Z.to_nat (Z.abs (y2 - y1)))) by lia.
    rewrite hd_map_zseq, last_map_zseq by lia. rewrite Z2Nat.id by lia.
    destruct (Z.eq_dec (Z.abs (y2 - y1)) 0) as [E|E].
    + rewrite E, !minor_offset_degenerate. split; f_equal; lia.
    + rewrite minor_offset_0, minor_offset_last by lia. split; f_equal; lia.
Qed.

(** C3 (functional). The first pixel is the start point and the last pixel
    is the end point, for every pair of endpoints. *)
Theorem bresenham_line_endpoints x1 y1 x2 y2 :
  hd (0, 0) (bresenham_line x1 y1 x2 y2) = (x1, y1) /\
  last (bresenham_line x1 y1 x2 y2) (0, 0) = (x2, y2).
Proof. exact (bresenham_first_last x1 y1 x2 y2). Qed.

(** C4 (bounds). Every pixel lies within half a pixel of the ideal segment,
    measured across the driving axis: for the pixel [(a, b)],
    [|2 * ((b - y1) * (x2 - x1) - (a - x1) * (y2 - y1))| <= max(|dx|, |dy|)]. *)
Theorem bresenham_pixels_near_line x1 y1 x2 y2 a b :
  In (a, b) (bresenham_line x1 y1 x2 y2) ->
  Z.abs (2 * ((b - y1) * (x2 - x1) - (a - x1) * (y2 - y1)))
    <= Z.max (Z.abs (x2 - x1)) (Z.abs (y2 - y1)).
Proof.
  rewrite bresenham_line_closed_form. unfold bresenham_spec. cbv zeta.
  pose proof (step_times_abs x1 x2) as Ex. pose proof (step_times_abs y1 y2) as Ey.
  pose proof (step_cases x1 x2) as Sx. pose proof (step_cases y1 y2) as Sy.
  set (xs := if x2 >? x1 then 1 else -1) in *. set (ys := if y2 >? y1 then 1 else -1) in *.
  set (dx := Z.abs (x2 - x1)) in *. set (dy := Z.abs (y2 - y1)) in *.
  assert (0 <= dx /\ 0 <= dy) as [Hx0 Hy0] by lia.
  rewrite <- Ex, <- Ey. clearbody xs ys dx dy.
  destruct (Z.gtb_spec dx dy); rewrite in_map_iff;
    intros [k [Hk Hin]]; apply in_zseq in Hin; injection Hk as <- <-.
  - pose proof (minor_offset_bounds dx dy ltac:(lia) k).
    destruct Sx as [->| ->]; destruct Sy as [->| ->]; nia.
  - destruct (Z.eq_dec dy 0) as [E|E].
    + subst dy. assert (dx = 0) by lia. subst dx. rewrite minor_offset_degenerate. lia.
    + pose proof (minor_offset_bounds dy dx ltac:(lia) k).
      destruct Sx as [->| ->]; destruct Sy as [->| ->]; nia.
Qed.

(** One move of the walk along the line: the driving coordinate advances
    by its step, the other coordinate stays or advances by its step. *)
Definition line_move (x_major : bool) (x_step y_step : Z) (a b : point) : Prop :=
  if x_major then fst b = fst a + x_step /\ (snd b = snd a \/ snd b = snd a + y_step)
  else snd b = snd a + y_step /\ (fst b = fst a \/ fst b = fst a + x_step).

(** C5 (invariant). Consecutive pixels are 8-neighbours: the driving
    coordinate moves by exactly one step toward the end point and the other
    coordinate by zero or one step in its direction. *)
Theorem bresenham_line_connected x1 y1 x2 y2 :
  chain (line_move (Z.abs (x2 - x1) >? Z.abs (y2 - y1))
                   (if x2 >? x1 then 1 else -1) (if y2 >? y1 then 1 else -1))
        (bresenham_line x1 y1 x2 y2).
Proof.
  rewrite bresenham_line_closed_form. unfold bresenham_spec, line_move. cbv zeta.
  destruct (Z.gtb_spec (Z.abs (x2 - x1)) (Z.abs (y2 - y1)));
    apply chain_map_zseq; intros k Hk Hk'; cbn [fst snd].
  - destruct (minor_offset_step (Z.abs (x2 - x1)) (Z.abs (y2 - y1))
                ltac:(lia) ltac:(lia) k) as [E|E]; rewrite E; lia.
  - destruct (minor_offset_step (Z.abs (y2 - y1)) (Z.abs (x2 - x1))
                ltac:(lia) ltac:(lia) k) as [E|E]; rewrite E; lia.
Qed.

(** C6 (invariant). No two pixels share a driving-axis coordinate. *)
Theorem bresenham_driving_axis_distinct x1 y1 x2 y2 :
  NoDup (map (if Z.abs (x2 - x1) >? Z.abs (y2 - y1) then fst else snd)
             (bresenham_line x1 y1 x2 y2)).
Proof.
  rewrite bresenham_line_closed_form. unfold bresenham_spec. cbv zeta.
  pose proof (step_cases x1 x2) as Sx. pose proof (step_cases y1 y2) as Sy.
  set (xs := if x2 >? x1 then 1 else -1) in *. set (ys := if y2 >? y1 then 1 else -1) in *.
  clearbody xs ys.
  destruct (Z.abs (x2 - x1) >? Z.abs (y2 - y1)); rewrite map_map;
    apply NoDup_map_zseq; cbn [fst snd]; intros i j; lia.
Qed.

(** ** Witnesses on the demo inputs of [src/bresenham.py] *)

Lemma bresenham_pixels_near_line_witness :
  In (250, 325) (bresenham_line 100 300 400 350) /\
  Z.abs (2 * ((325 - 300) * (400 - 100) - (250 - 100) * (350 - 300)))
    <= Z.max (Z.abs (400 - 100)) (Z.abs (350 - 300)).
Proof.
  assert (H : In (250, 325) (bresenham_line 100 300 400 350))
    by (apply In_of_existsb; vm_compute; reflexivity).
  split; [exact H | exact (bresenham_pixels_near_line 100 300 400 350 250 325 H)].
Defined.

End Bresenham.
