(* ===== verification/DDA.v ===== *)
(** * The DDA line algorithm ([src/DDA.py], [dda_line])

    The Python function accumulates the position in floats; the model
    keeps it as an exact rational ([Q]), normalised with [Qred] after each
    addition so that long lines still compute (normalisation does not
    change the value, and [py_round] only depends on the value, see
    [py_round_proper]).  [state] holds the running position and the
    [points] list; [step] is one iteration of the loop (lines 20-23 of
    [dda_line]).

    The exact model resolves a tie of [round] as exact arithmetic does.
    The doubles of the source accumulate rounding error and can fall on
    either side of a tie: on [(100,300)-(106,301)] the exact [y] of step 3
    is [300.5], rounded to [300], where Python draws [301].  The closed
    form [dda_line_closed_form] is therefore a lemma of the model only;
    the theorems keep to what holds for the doubles too: the length and
    endpoints of the output, and its pixel-by-pixel comparison with
    [Bresenham.bresenham_line] (both walk the same driving-axis
    coordinates and differ by at most one on the other axis). *)

From Stdlib Require Import ZArith Lia List QArith Lqa.
From S2P Require Import Prelude Bresenham.
Import ListNotations.
Open Scope Z_scope.

Module DDA.

(** ** The model *)

Record state := mk_state { x : Q; y : Q; points : list point }.

(** [points.append((round(x), round(y))); x += x_inc; y += y_inc] *)
Definition step (x_inc y_inc : Q) (s : state) : state :=
  mk_state (Qred (x s + x_inc)) (Qred (y s + y_inc))
           (append (points s) (py_round (x s), py_round (y s))).

(** [dda_line(x1, y1, x2, y2)] (lines 4-27 of [src/DDA.py]). *)
Definition dda_line (x1 y1 x2 y2 : Z) : list point :=
  let dx := x2 - x1 in
  let dy := y2 - y1 in
  let steps := Z.max (Z.abs dx) (Z.abs dy) in
  if steps =? 0 then [(x1, y1)]
  else
    let x_inc := (inject_Z dx / inject_Z steps)%Q in
    let y_inc := (inject_Z dy / inject_Z steps)%Q in
    points (for_range (Z.to_nat (steps + 1)) (step x_inc y_inc)
              (mk_state (inject_Z x1) (inject_Z y1) [])).

(** ** The closed form: pixel [k] is the rounding of the exact point
    [start + k * (end - start) / steps]. *)

Definition dda_pixel (x1 y1 dx dy steps k : Z) : point :=
  (py_round ((x1 * steps + k * dx) # Z.to_pos steps),
   py_round ((y1 * steps + k * dy) # Z.to_pos steps)).

Definition dda_spec (x1 y1 x2 y2 : Z) : list point :=
  let dx := x2 - x1 in
  let dy := y2 - y1 in
  let steps := Z.max (Z.abs dx) (Z.abs dy) in
  if steps =? 0 then [(x1, y1)]
  else map (dda_pixel x1 y1 dx dy steps) (zseq (Z.to_nat (steps + 1))).

Lemma Qmake_steps (a k d s : Z) :
  0 < s ->
  (inject_Z a + inject_Z k * (inject_Z d / inject_Z s) == (a * s + k * d) # Z.to_pos s)%Q.
Proof.
  intros Hs. rewrite Qmake_Qdiv, Z2Pos.id by exact Hs.
  rewrite inject_Z_plus, !inject_Z_mult. field.
  intros E. apply (inject_Z_injective s 0) in E. lia.
Qed.

(** The state after [n] iterations of the loop: the position is the exact
    point [start + n * inc]. *)
Lemma dda_loop (x1 y1 : Z) (x_inc y_inc : Q) n :
  let s := for_range n (step x_inc y_inc) (mk_state (inject_Z x1) (inject_Z y1) []) in
  (x s == inject_Z x1 + inject_Z (Z.of_nat n) * x_inc)%Q /\
  (y s == inject_Z y1 + inject_Z (Z.of_nat n) * y_inc)%Q /\
  points s = map (fun k => (py_round (inject_Z x1 + inject_Z k * x_inc)%Q,
                            py_round (inject_Z y1 + inject_Z k * y_inc)%Q)) (zseq n).
Proof.
  apply for_range_ind.
  - cbn [x y points]. split; [|split]; [ring | ring | reflexivity].
  - intros k s [Hx [Hy Hp]]. unfold step; cbn [x y points].
    rewrite !Qred_correct, Hx, Hy, Hp, zseq_S, map_app. unfold append.
    rewrite Nat2Z.inj_succ, <- Z.add_1_r, inject_Z_plus.
    split; [|split]; [ring | ring | reflexivity].
Qed.

Lemma dda_line_closed_form x1 y1 x2 y2 :
  dda_line x1 y1 x2 y2 = dda_spec x1 y1 x2 y2.
Proof.
  unfold dda_line, dda_spec. cbv zeta.
  set (steps := Z.max (Z.abs (x2 - x1)) (Z.abs (y2 - y1))).
  destruct (Z.eqb_spec steps 0) as [E|E]; [reflexivity|].
  destruct (dda_loop x1 y1 (inject_Z (x2 - x1) / inject_Z steps)
              (inject_Z (y2 - y1) / inject_Z steps) (Z.to_nat (steps + 1)))
    as [_ [_ ->]].
  apply map_ext. intros k. unfold dda_pixel.
  rewrite !Qmake_steps by lia. reflexivity.
Qed.

(** ** Length, endpoints, and agreement with Bresenham *)

(** C7 (functional). DDA emits [max(|dx|, |dy|) + 1] pixels, as many as
    Bresenham's algorithm on the same segment; a zero-length segment gives
    one pixel. *)
Theorem dda_line_length x1 y1 x2 y2 :
  length (dda_line x1 y1 x2 y2) =
  Z.to_nat (Z.max (Z.abs (x2 - x1)) (Z.abs (y2 - y1)) + 1).
Proof.
  rewrite dda_line_closed_form. unfold dda_spec. cbv zeta.
  destruct (Z.eqb_spec (Z.max (Z.abs (x2 - x1)) (Z.abs (y2 - y1))) 0) as [E|E].
  - rewrite E. reflexivity.
  - rewrite length_map, length_zseq. reflexivity.
Qed.

Lemma dda_first_last x1 y1 x2 y2 :
  hd (0, 0) (dda_line x1 y1 x2 y2) = (x1, y1) /\
  last (dda_line x1 y1 x2 y2) (0, 0) = (x2, y2).
Proof.
  rewrite dda_line_closed_form. unfold dda_spec. cbv zeta.
  set (steps := Z.max (Z.abs (x2 - x1)) (Z.abs (y2 - y1))).
  destruct (Z.eqb_spec steps 0) as [E|E].
  - simpl. split; f_equal; lia.
  - replace (Z.to_nat (steps + 1)) with (S (Z.to_nat steps)) by lia.
    rewrite hd_map_zseq, last_map_zseq, Z2Nat.id by lia. unfold dda_pixel.
    replace (x1 * steps + 0 * (x2 - x1)) with (x1 * steps) by ring.
    replace (y1 * steps + 0 * (y2 - y1)) with (y1 * steps) by ring.
    replace (x1 * steps + steps * (x2 - x1)) with (x2 * steps) by ring.
    replace (y1 * steps + steps * (y2 - y1)) with (y2 * steps) by ring.
    rewrite !py_round_div_exact by lia. split; reflexivity.
Qed.

(** C8 (functional). The first DDA pixel is the start point and the last
    one is the end point: the exact accumulation reaches the end point
    after [steps] increments. *)
Theorem dda_line_endpoints x1 y1 x2 y2 :
  hd (0, 0) (dda_line x1 y1 x2 y2) = (x1, y1) /\
  last (dda_line x1 y1 x2 y2) (0, 0) = (x2, y2).
Proof. exact (dda_first_last x1 y1 x2 y2). Qed.

(** Two pixels of the same index agree on the driving axis and are at most
    one apart on each axis. *)
Definition line_agree (x_major : bool) (a b : point) : Prop :=
  (if x_major then fst a = fst b else snd a = snd b) /\
  Z.abs (fst a - fst b) <= 1 /\ Z.abs (snd a - snd b) <= 1.

(** C9 (equivalence). DDA and Bresenham produce the same number of
    pixels, pixel [k] of both lies on the same driving-axis coordinate, and
    the other coordinates differ by at most one (they differ exactly where
    [k * dmin / dmax] is a tie, which DDA rounds to even and Bresenham
    rounds away from the start). *)
Theorem dda_bresenham_agree x1 y1 x2 y2 :
  Forall2 (line_agree (Z.abs (x2 - x1) >? Z.abs (y2 - y1)))
          (dda_line x1 y1 x2 y2) (Bresenham.bresenham_line x1 y1 x2 y2).
Proof.
  rewrite dda_line_closed_form, Bresenham.bresenham_line_closed_form.
  unfold dda_spec, Bresenham.bresenham_spec. cbv zeta.
  pose proof (Bresenham.step_times_abs x1 x2) as Ex.
  pose proof (Bresenham.step_times_abs y1 y2) as Ey.
  pose proof (Bresenham.step_cases x1 x2) as Sx. pose proof (Bresenham.step_cases y1 y2) as Sy.
  set (xs := if x2 >? x1 then 1 else -1) in *. set (ys := if y2 >? y1 then 1 else -1) in *.
  set (dx := Z.abs (x2 - x1)) in *. set (dy := Z.abs (y2 - y1)) in *.
  assert (0 <= dx /\ 0 <= dy) as [Hx0 Hy0] by lia.
  rewrite <- Ex, <- Ey. clearbody xs ys dx dy.
  destruct (Z.eqb_spec (Z.max dx dy) 0) as [E|E].
  - assert (dx = 0 /\ dy = 0) as [-> ->] by lia. simpl.
    constructor; [|constructor]. unfold line_agree; cbn. lia.
  - unfold line_agree, dda_pixel.
    destruct (Z.gtb_spec dx dy) as [Hlt|Hge].
    + replace (Z.max dx dy) with dx by lia.
      apply Forall2_map_zseq. intros k Hk. cbn [fst snd].
      replace (x1 * dx + k * (xs * dx)) with ((x1 + xs * k) * dx) by ring.
      rewrite py_round_div_exact by lia.
      pose proof (py_round_div (y1 * dx + k * (ys * dy)) dx ltac:(lia)).
      pose proof (Bresenham.minor_offset_bounds dx dy ltac:(lia) k).
      destruct Sy as [E1|E1]; rewrite E1 in *; (split; [reflexivity | split; nia]).
    + replace (Z.max dx dy) with dy by lia.
      apply Forall2_map_zseq. intros k Hk. cbn [fst snd].
      replace (y1 * dy + k * (ys * dy)) with ((y1 + ys * k) * dy) by ring.
      rewrite py_round_div_exact by lia.
      pose proof (py_round_div (x1 * dy + k * (xs * dx)) dy ltac:(lia)).
      pose proof (Bresenham.minor_offset_bounds dy dx ltac:(lia) k).
      destruct Sx as [E1|E1]; rewrite E1 in *; (split; [reflexivity | split; nia]).
Qed.

(** On the segment from [(0, 0)] to [(2, 1)] the middle pixel is an exact
    tie ([y = 0.5]): Python's [round] goes to the even [0], Bresenham's
    decision parameter goes up to [1]. *)
Example dda_bresenham_tie :
  dda_line 0 0 2 1 = [(0, 0); (1, 0); (2, 1)] /\
  Bresenham.bresenham_line 0 0 2 1 = [(0, 0); (1, 1); (2, 1)].
Proof. split; vm_compute; reflexivity. Qed.

End DDA.
