(* ===== verification/Circle.v ===== *)
(** * The midpoint circle algorithm ([src/mid_point_circle.py])

    [midpoint_circle(xc, yc, r)] walks the octant [0 <= x <= y] from
    [(0, r)] with the integer decision parameter [p] and emits, at the
    start and after every iteration, the eight reflections of [(x, y)]
    around the centre ([plot_circle_points]).  The loop state is [state];
    [body] is one iteration of the [while x < y] loop (lines 27-39) and
    [init] the state before it (lines 17-24).  The loop runs on fuel
    ([while_loop]); [midpoint_circle_terminates] shows that the fuel
    [r + 1] passed by [midpoint_circle] is always enough.

    The theorems: the decision parameter is the midpoint function
    [(x + 1)² + (y - 1/2)² - r²] (shifted by [1/4]) in every reachable
    state; every emitted pixel is within the midpoint tolerance of the
    circle; the output is closed under the reflections across both axes
    through the centre and across the diagonal. *)

From Stdlib Require Import ZArith Lia List.
From S2P Require Import Prelude.
Import ListNotations.
Open Scope Z_scope.

Module Circle.

(** ** The model *)

Record state := mk_state { x : Z; y : Z; p : Z; points : list point }.

(** [plot_circle_points(xc, yc, x, y, points)] (lines 4-14). *)
Definition plot_circle_points (xc yc x y : Z) (points : list point) : list point :=
  extend points
    [(xc + x, yc + y); (xc - x, yc + y); (xc + x, yc - y); (xc - x, yc - y);
     (xc + y, yc + x); (xc - y, yc + x); (xc + y, yc - x); (xc - y, yc - x)].

(** The loop condition [x < y] (line 27). *)
Definition cond (s : state) : bool := x s <? y s.

(** One iteration of the loop (lines 28-39). *)
Definition body (xc yc : Z) (s : state) : state :=
  let x' := x s + 1 in
  if p s <? 0 then
    mk_state x' (y s) (p s + 2 * x' + 1) (plot_circle_points xc yc x' (y s) (points s))
  else
    let y' := y s - 1 in
    mk_state x' y' (p s + 2 * (x' - y') + 1) (plot_circle_points xc yc x' y' (points s)).

(** Lines 17-24: [x = 0], [y = r], [p = 1 - r] and the first eight points. *)
Definition init (xc yc r : Z) : state :=
  mk_state 0 r (1 - r) (plot_circle_points xc yc 0 r []).

Definition midpoint_circle_fuel (fuel : nat) (xc yc r : Z) : option (list point) :=
  option_map points (while_loop fuel cond (body xc yc) (init xc yc r)).

(** [midpoint_circle(xc, yc, r)] (lines 16-41), with [r + 1] iterations of
    fuel. *)
Definition midpoint_circle (xc yc r : Z) : option (list point) :=
  midpoint_circle_fuel (S (Z.to_nat r)) xc yc r.

Definition reachable (xc yc r : Z) : state -> Prop :=
  loop_reach cond (body xc yc) (init xc yc r).

(** ** Termination *)

(** C10 (termination). The [while x < y] loop stops within [r + 1]
    iterations for every centre and radius: [midpoint_circle] always
    returns its list of points. *)
Theorem midpoint_circle_terminates xc yc r :
  exists pts, midpoint_circle xc yc r = Some pts.
Proof.
  destruct (while_loop_terminates cond (body xc yc) (fun s => Z.to_nat (y s - x s)))
    with (n := S (Z.to_nat r)) (s := init xc yc r) as [s' Hs'].
  - intros s Hc. unfold cond in Hc. apply Z.ltb_lt in Hc.
    unfold body. destruct (p s <? 0); cbn; lia.
  - unfold init; cbn [x y]. lia.
  - unfold midpoint_circle, midpoint_circle_fuel. rewrite Hs'. simpl. eauto.
Qed.

(** ** The decision parameter *)

Lemma body_p xc yc r s :
  p s = (x s + 1)² + (y s)² - y s - r² ->
  p (body xc yc s) = (x (body xc yc s) + 1)² + (y (body xc yc s))² - y (body xc yc s) - r².
Proof. intros H. unfold body. destruct (p s <? 0); cbn [x y p]; nia. Qed.

Lemma reach_p xc yc r s :
  reachable xc yc r s -> p s = (x s + 1)² + (y s)² - y s - r².
Proof. induction 1 as [|s _ IH _]; [unfold init; cbn [x y p]; ring | apply body_p, IH]. Qed.

(** C11 (invariant). In every state the loop reaches, the decision
    parameter is the midpoint function of the next candidate:
    [p = (x + 1)² + y² - y - r²], i.e. [4p + 1 = 4(x + 1)² + (2y - 1)² - 4r²]
    is four times [(x + 1)² + (y - 1/2)² - r²]: [p < 0] exactly when the
    midpoint [(x + 1, y - 1/2)] lies inside the circle. *)
Theorem circle_decision_invariant xc yc r s :
  reachable xc yc r s -> p s = (x s + 1)² + (y s)² - y s - r².
Proof. apply reach_p. Qed.

(** ** Accuracy of the emitted pixels *)

(** The midpoint tolerance of a pixel: with [u], [v] its distances to the
    centre along the axes and [m = max(u, v)],
    [r² - m <= u² + v² < r² + m].  For [u <= v] this says that [v] is the
    integer nearest to [sqrt(r² - u²)] in the midpoint sense
    ([(v - 1/2)² < r² - u² + 1/4 <= (v + 1/2)²]). *)
Definition pixel_ok (xc yc r : Z) (q : point) : Prop :=
  let u := fst q - xc in
  let v := snd q - yc in
  let m := Z.max (Z.abs u) (Z.abs v) in
  r² - m <= u² + v² < r² + m.

Lemma plot_pixels_ok xc yc r a b pts :
  0 <= a -> 0 <= b -> r² - Z.max a b <= a² + b² < r² + Z.max a b ->
  Forall (pixel_ok xc yc r) pts ->
  Forall (pixel_ok xc yc r) (plot_circle_points xc yc a b pts).
Proof.
  intros Ha Hb H Hpts. unfold plot_circle_points, extend. apply Forall_app. split; [exact Hpts|].
  repeat constructor; unfold pixel_ok; cbn [fst snd]; nia.
Qed.

(** What every reachable state satisfies when [r > 0]: the point [(x, y)]
    is in the first octant within the tolerance (or, after the last
    iteration, its mirror image across the diagonal is), and every pixel
    emitted so far is within the tolerance. *)
Definition circle_inv (xc yc r : Z) (s : state) : Prop :=
  0 <= x s /\ 0 <= y s /\ x s <= r /\ y s <= r /\
  ((x s <= y s /\ (x s)² + (y s)² - y s < r² <= (x s)² + (y s)² + y s) \/
   (y s < x s /\ (x s)² + (y s)² - x s < r² <= (x s)² + (y s)² + x s)) /\
  Forall (pixel_ok xc yc r) (points s).

Lemma circle_inv_init xc yc r : 0 < r -> circle_inv xc yc r (init xc yc r).
Proof.
  intros Hr. unfold circle_inv, init; cbn [x y points].
  repeat split; try solve [lia | left; nia].
  apply plot_pixels_ok; [lia | lia | nia | constructor].
Qed.

Lemma circle_inv_body xc yc r s :
  p s = (x s + 1)² + (y s)² - y s - r² -> cond s = true ->
  circle_inv xc yc r s -> circle_inv xc yc r (body xc yc s).
Proof.
  unfold cond, circle_inv, body. intros Hp Hc (Hx & Hy & Hxr & Hyr & Hnear & Hpts).
  apply Z.ltb_lt in Hc.
  destruct Hnear as [[_ Hn] | [Hlt _]]; [|lia].
  destruct (Z.ltb_spec (p s) 0); cbn [x y points].
  - repeat split; try solve [lia | left; nia].
    apply plot_pixels_ok; [lia | lia | nia | exact Hpts].
  - repeat split;
      try solve [lia | destruct (Z.ltb_spec (x s + 1) (y s - 1)); [left; nia | right; nia]].
    apply plot_pixels_ok; [lia | lia | | exact Hpts].
    destruct (Z.leb_spec (x s + 1) (y s - 1)); nia.
Qed.

(** C12 (bounds). For a positive radius, every pixel [midpoint_circle]
    emits is within the midpoint tolerance of the circle:
    [r² - m <= u² + v² < r² + m] with [u, v] its offsets from the centre
    and [m = max(|u|, |v|) <= r]; so its distance to the centre rounds to
    [r - 1], [r] or [r + 1]. *)
Theorem midpoint_circle_accurate xc yc r pts :
  0 < r -> midpoint_circle xc yc r = Some pts -> Forall (pixel_ok xc yc r) pts.
Proof.
  intros Hr. unfold midpoint_circle, midpoint_circle_fuel.
  destruct (while_loop _ _ _ _) as [s|] eqn:E; [|discriminate]. intros H; injection H as <-.
  assert (Hreach : reachable xc yc r s) by exact (while_loop_reach _ _ _ _ _ _ (reach_init _ _ _) E).
  enough (circle_inv xc yc r s) by (unfold circle_inv in *; tauto).
  clear E. induction Hreach as [|s' Hr' IH Hc].
  - apply circle_inv_init, Hr.
  - apply circle_inv_body; [apply (reach_p xc yc r), Hr' | exact Hc | exact IH].
Qed.

(** ** Symmetry of the output *)

(** [l] is closed under the reflections across the vertical and the
    horizontal line through the centre and across the diagonal; these
    generate the eight symmetries of the circle. *)
Definition sym_closed (xc yc : Z) (l : list point) : Prop :=
  forall a b, In (a, b) l ->
    In (2 * xc - a, b) l /\ In (a, 2 * yc - b) l /\ In (xc + (b - yc), yc + (a - xc)) l.

Lemma plot_sym_closed xc yc a b pts :
  sym_closed xc yc pts -> sym_closed xc yc (plot_circle_points xc yc a b pts).
Proof.
  unfold plot_circle_points, extend. intros Hl u v Hin.
  apply in_app_iff in Hin as [Hin|Hin].
  - destruct (Hl u v Hin) as (H1 & H2 & H3). rewrite !in_app_iff. tauto.
  - rewrite !in_app_iff. cbn in Hin.
    repeat destruct Hin as [Hin|Hin]; try contradiction; injection Hin as <- <-;
      repeat split; right; cbn [In]; in_list_by_arith.
Qed.

(** C13 (invariant). The pixels [midpoint_circle] emits are symmetric: the
    mirror image of every pixel across the vertical axis, the horizontal
    axis and the diagonal through the centre is also emitted. *)
Theorem midpoint_circle_symmetric xc yc r pts :
  midpoint_circle xc yc r = Some pts -> sym_closed xc yc pts.
Proof.
  unfold midpoint_circle, midpoint_circle_fuel.
  destruct (while_loop _ _ _ _) as [s|] eqn:E; [|discriminate]. intros H; injection H as <-.
  refine (while_loop_inv _ _ (fun s => sym_closed xc yc (points s)) _ _ _ _ _ E).
  - apply plot_sym_closed. intros a b [].
  - intros t Ht _. unfold body. destruct (p t <? 0); apply plot_sym_closed, Ht.
Qed.

(** ** Witnesses *)

Lemma circle_decision_invariant_witness :
  reachable 0 0 5 (body 0 0 (init 0 0 5)) /\
  p (body 0 0 (init 0 0 5)) =
    (x (body 0 0 (init 0 0 5)) + 1)² + (y (body 0 0 (init 0 0 5)))²
    - y (body 0 0 (init 0 0 5)) - 5².
Proof.
  assert (H : reachable 0 0 5 (body 0 0 (init 0 0 5)))
    by (apply reach_step; [apply reach_init | reflexivity]).
  split; [exact H | exact (circle_decision_invariant 0 0 5 _ H)].
Defined.

Lemma midpoint_circle_accurate_witness :
  Forall (pixel_ok 200 150 80)
         (match midpoint_circle 200 150 80 with Some l => l | None => [] end).
Proof. apply (midpoint_circle_accurate 200 150 80); [lia | vm_compute; reflexivity]. Defined.

Lemma midpoint_circle_symmetric_witness :
  sym_closed 400 300 (match midpoint_circle 400 300 120 with Some l => l | None => [] end).
Proof. apply (midpoint_circle_symmetric 400 300 120). vm_compute. reflexivity. Defined.

(** Radius 0 gives the centre eight times (the source does not
    deduplicate). *)
Example midpoint_circle_radius_0 :
  midpoint_circle 7 9 0 = Some (repeat (7, 9) 8).
Proof. vm_compute. reflexivity. Qed.

End Circle.
