(* ===== verification/Ellipse.v ===== *)
(** * The midpoint ellipse algorithm ([src/mid_point_ellipse.py])

    [midpoint_ellipse(xc, yc, rx, ry)] runs two [while] loops over the
    first quadrant and emits, at the start of every iteration, the four
    reflections of [(x, y)] around the centre ([plot_ellipse_points]).
    Region 1 ([while dx < dy], lines 33-44) advances [x] and steps [y]
    down when the decision parameter [p1] says so; region 2
    ([while y >= 0], lines 50-61) steps [y] down and advances [x] when
    [p2] says so.  [p2] is recomputed from [(x, y)] between the loops
    (line 48), not carried over from [p1].

    The decision parameters are Python floats whose values are quarter
    integers ([0.25 * rx_sq], [(x + 0.5) * (x + 0.5)]); the model stores
    [4 * p1] and [4 * p2] as integers.  For radii below [2^12] every value
    stays below [2^51], where doubles represent quarter integers exactly,
    so the scaled integers are the floats' values times four.

    The loops run on fuel: [rx² + 1] iterations for region 1 (in which
    [x < rx²] as long as [dx < dy]) and [y + 2] for region 2;
    [midpoint_ellipse_terminates] shows that this is always enough. *)

From Stdlib Require Import ZArith Lia List.
From S2P Require Import Prelude.
Import ListNotations.
Open Scope Z_scope.

Module Ellipse.

(** ** The model *)

(** The loop variables: [p] is [4 * p1] in region 1 and [4 * p2] in
    region 2. *)
Record state := mk_state { x : Z; y : Z; dx : Z; dy : Z; p : Z; points : list point }.

(** [plot_ellipse_points(xc, yc, x, y, points)] (lines 5-11). *)
Definition plot_ellipse_points (xc yc x y : Z) (points : list point) : list point :=
  extend points [(xc + x, yc + y); (xc - x, yc + y); (xc - x, yc - y); (xc + x, yc - y)].

(** Lines 14-30: [x = 0], [y = ry], [p1 = ry² - rx²·ry + 0.25·rx²],
    [dx = 2·ry²·x], [dy = 2·rx²·y]. *)
Definition init (rx ry : Z) : state :=
  mk_state 0 ry (2 * ry² * 0) (2 * rx² * ry) (4 * ry² - 4 * (rx² * ry) + rx²) [].

Definition cond1 (s : state) : bool := dx s <? dy s.

(** One iteration of the region-1 loop (lines 34-44). *)
Definition region1 (xc yc rx ry : Z) (s : state) : state :=
  let pts := plot_ellipse_points xc yc (x s) (y s) (points s) in
  let x' := x s + 1 in
  let dx' := dx s + 2 * ry² in
  if p s <? 0 then mk_state x' (y s) dx' (dy s) (p s + 4 * (dx' + ry²)) pts
  else
    let y' := y s - 1 in
    let dy' := dy s - 2 * rx² in
    mk_state x' y' dx' dy' (p s + 4 * (dx' - dy' + ry²)) pts.

(** Line 48: [p2 = ry²·(x + 0.5)² + rx²·(y - 1)² - rx²·ry²], recomputed
    from the position where region 1 stopped. *)
Definition start_region2 (rx ry : Z) (s : state) : state :=
  mk_state (x s) (y s) (dx s) (dy s)
           (ry² * (2 * x s + 1)² + 4 * (rx² * (y s - 1)²) - 4 * (rx² * ry²)) (points s).

Definition cond2 (s : state) : bool := 0 <=? y s.

(** One iteration of the region-2 loop (lines 51-61). *)
Definition region2 (xc yc rx ry : Z) (s : state) : state :=
  let pts := plot_ellipse_points xc yc (x s) (y s) (points s) in
  let y' := y s - 1 in
  let dy' := dy s - 2 * rx² in
  if 0 <? p s then mk_state (x s) y' (dx s) dy' (p s + 4 * (rx² - dy')) pts
  else
    let x' := x s + 1 in
    let dx' := dx s + 2 * ry² in
    mk_state x' y' dx' dy' (p s + 4 * (dx' - dy' + rx²)) pts.

(** [midpoint_ellipse(xc, yc, rx, ry)] (lines 13-63). *)
Definition midpoint_ellipse (xc yc rx ry : Z) : option (list point) :=
  match while_loop (S (Z.to_nat (rx²))) cond1 (region1 xc yc rx ry) (init rx ry) with
  | None => None
  | Some s1 =>
      option_map points
        (while_loop (S (S (Z.to_nat (y s1)))) cond2 (region2 xc yc rx ry)
                    (start_region2 rx ry s1))
  end.

(** ** Invariants of the two loops *)

(** [4 * f(x, y)] for [f(x, y) = ry²·x² + rx²·y² - rx²·ry²], at the
    midpoints the two regions test: [(x + 1, y - 1/2)] and [(x + 1/2, y - 1)]. *)
Definition mid1 (rx ry x y : Z) : Z := 4 * ry² * (x + 1)² + rx² * (2 * y - 1)² - 4 * rx² * ry².
Definition mid2 (rx ry x y : Z) : Z := ry² * (2 * x + 1)² + 4 * rx² * (y - 1)² - 4 * rx² * ry².

(** [dx] and [dy] track the gradient of [f] at [(x, y)]. *)
Definition slopes_ok (rx ry : Z) (s : state) : Prop :=
  dx s = 2 * ry² * x s /\ dy s = 2 * rx² * y s.

Lemma region1_inv xc yc rx ry s :
  slopes_ok rx ry s /\ p s = mid1 rx ry (x s) (y s) ->
  slopes_ok rx ry (region1 xc yc rx ry s) /\
  p (region1 xc yc rx ry s) = mid1 rx ry (x (region1 xc yc rx ry s)) (y (region1 xc yc rx ry s)).
Proof.
  unfold slopes_ok, mid1, region1. intros [[Hdx Hdy] Hp].
  destruct (p s <? 0); cbn [x y dx dy p]; repeat split; nia.
Qed.

Lemma region1_reach xc yc rx ry s :
  loop_reach cond1 (region1 xc yc rx ry) (init rx ry) s ->
  slopes_ok rx ry s /\ p s = mid1 rx ry (x s) (y s).
Proof.
  induction 1 as [|s _ IH _]; [|exact (region1_inv xc yc rx ry s IH)].
  unfold slopes_ok, mid1, init; cbn [x y dx dy p]. repeat split; ring.
Qed.

Lemma region2_inv xc yc rx ry s :
  slopes_ok rx ry s /\ p s = mid2 rx ry (x s) (y s) ->
  slopes_ok rx ry (region2 xc yc rx ry s) /\
  p (region2 xc yc rx ry s) = mid2 rx ry (x (region2 xc yc rx ry s)) (y (region2 xc yc rx ry s)).
Proof.
  unfold slopes_ok, mid2, region2. intros [[Hdx Hdy] Hp].
  destruct (0 <? p s); cbn [x y dx dy p]; repeat split; nia.
Qed.

Lemma region2_reach xc yc rx ry s0 s :
  slopes_ok rx ry s0 ->
  loop_reach cond2 (region2 xc yc rx ry) (start_region2 rx ry s0) s ->
  slopes_ok rx ry s /\ p s = mid2 rx ry (x s) (y s).
Proof.
  intros H0. induction 1 as [|s _ IH _]; [|exact (region2_inv xc yc rx ry s IH)].
  unfold start_region2, mid2; cbn [x y dx dy p]. split; [exact H0 | ring].
Qed.

(** C14 (invariant). In region 1 the decision parameter is always the
    ellipse function at the midpoint [(x + 1, y - 1/2)] of the two
    candidates, [4·p1 = 4·f(x + 1, y - 1/2)], and [dx], [dy] are
    [2·ry²·x] and [2·rx²·y]. *)
Theorem ellipse_region1_invariant xc yc rx ry s :
  loop_reach cond1 (region1 xc yc rx ry) (init rx ry) s ->
  dx s = 2 * ry² * x s /\ dy s = 2 * rx² * y s /\ p s = mid1 rx ry (x s) (y s).
Proof. intros H. destruct (region1_reach xc yc rx ry s H) as [[? ?] ?]. auto. Qed.

(** C15 (invariant). Because [p2] is recomputed at the switch (line 48),
    in every state of region 2 the decision parameter is the ellipse
    function at the midpoint [(x + 1/2, y - 1)] of that region's two
    candidates: [4·p2 = 4·f(x + 1/2, y - 1)]. *)
Theorem ellipse_region2_invariant xc yc rx ry s1 s :
  while_loop (S (Z.to_nat (rx²))) cond1 (region1 xc yc rx ry) (init rx ry) = Some s1 ->
  loop_reach cond2 (region2 xc yc rx ry) (start_region2 rx ry s1) s ->
  p s = mid2 rx ry (x s) (y s).
Proof.
  intros H1 H2. apply (region2_reach xc yc rx ry s1 s); [|exact H2].
  apply (region1_reach xc yc rx ry).
  exact (while_loop_reach _ _ _ _ _ _ (reach_init _ _ _) H1).
Qed.

(** ** Termination *)

Lemma region1_bounds xc yc rx ry s :
  loop_reach cond1 (region1 xc yc rx ry) (init rx ry) s -> 0 <= x s /\ y s <= ry.
Proof.
  induction 1 as [|s _ IH _]; [cbn; lia|].
  unfold region1. destruct (p s <? 0); cbn [x y]; lia.
Qed.

(** While [dx < dy], [x] stays below [rx²]: this bounds region 1. *)
Lemma region1_x_bound xc yc rx ry s :
  loop_reach cond1 (region1 xc yc rx ry) (init rx ry) s -> cond1 s = true -> x s < rx².
Proof.
  intros Hr Hc. destruct (region1_reach xc yc rx ry s Hr) as [[Hdx Hdy] _].
  destruct (region1_bounds xc yc rx ry s Hr) as [Hx Hy].
  unfold cond1 in Hc. apply Z.ltb_lt in Hc. rewrite Hdx, Hdy in Hc.
  destruct (Z.leb_spec (y s) 0); [nia|].
  assert (ry <= ry²) by nia.
  assert (rx² * y s <= rx² * ry²) by (apply Z.mul_le_mono_nonneg_l; nia).
  destruct (Z.ltb_spec (x s) (rx²)) as [|Hge]; [assumption|].
  assert (ry² * rx² <= ry² * x s) by (apply Z.mul_le_mono_nonneg_l; nia). nia.
Qed.

(** C16 (termination). Both loops of [midpoint_ellipse] stop within the
    fuel the model gives them, for every centre and pair of radii:
    [midpoint_ellipse] always returns its list of points. *)
Theorem midpoint_ellipse_terminates xc yc rx ry :
  exists pts, midpoint_ellipse xc yc rx ry = Some pts.
Proof.
  unfold midpoint_ellipse.
  destruct (while_loop_terminates_from cond1 (region1 xc yc rx ry)
              (fun s => Z.to_nat (rx² - x s)) (init rx ry))
    with (n := S (Z.to_nat (rx²))) (s := init rx ry) as [s1 ->].
  - intros s Hr Hc. pose proof (region1_x_bound xc yc rx ry s Hr Hc).
    unfold region1. destruct (p s <? 0); cbn [x]; lia.
  - apply reach_init.
  - cbn [x init]. lia.
  - destruct (while_loop_terminates cond2 (region2 xc yc rx ry) (fun s => Z.to_nat (y s + 1)))
      with (n := S (S (Z.to_nat (y s1)))) (s := start_region2 rx ry s1) as [s2 ->].
    + intros s Hc. unfold cond2 in Hc. apply Z.leb_le in Hc.
      unfold region2. destruct (0 <? p s); cbn [y]; lia.
    + cbn [y start_region2]. lia.
    + cbn. eauto.
Qed.

(** ** Symmetry and the flat ellipse *)

(** [l] is closed under the reflections across the vertical and the
    horizontal line through the centre. *)
Definition quad_closed (xc yc : Z) (l : list point) : Prop :=
  forall a b, In (a, b) l -> In (2 * xc - a, b) l /\ In (a, 2 * yc - b) l.

Lemma plot_quad_closed xc yc a b pts :
  quad_closed xc yc pts -> quad_closed xc yc (plot_ellipse_points xc yc a b pts).
Proof.
  unfold plot_ellipse_points, extend. intros Hl u v Hin.
  apply in_app_iff in Hin as [Hin|Hin].
  - destruct (Hl u v Hin) as (H1 & H2). rewrite !in_app_iff. tauto.
  - rewrite !in_app_iff. cbn [In] in Hin.
    repeat destruct Hin as [Hin|Hin]; try contradiction; injection Hin as <- <-;
      split; right; cbn [In]; in_list_by_arith.
Qed.

(** C17 (invariant). The output of [midpoint_ellipse] is symmetric across
    the vertical and the horizontal axis through the centre. *)
Theorem midpoint_ellipse_symmetric xc yc rx ry pts :
  midpoint_ellipse xc yc rx ry = Some pts -> quad_closed xc yc pts.
Proof.
  unfold midpoint_ellipse.
  destruct (while_loop _ cond1 _ _) as [s1|] eqn:E1; [|discriminate].
  destruct (while_loop _ cond2 _ _) as [s2|] eqn:E2; [|discriminate].
  intros H; injection H as <-.
  refine (while_loop_inv _ _ (fun s => quad_closed xc yc (points s)) _ _ _ _ _ E2).
  - refine (while_loop_inv _ _ (fun s => quad_closed xc yc (points s)) _ _ _ _ _ E1).
    + intros a b [].
    + intros t Ht _. unfold region1. destruct (p t <? 0); apply plot_quad_closed, Ht.
  - intros t Ht _. unfold region2. destruct (0 <? p t); apply plot_quad_closed, Ht.
Qed.

(** C18 (functional). A flat ellipse ([ry = 0]) is drawn as its centre
    alone, four times, whatever [rx]: region 1 never runs ([dy = 0]) and
    region 2 runs once, at [y = 0], with [x = 0].  The horizontal segment
    from [xc - rx] to [xc + rx] that the degenerate ellipse covers is not
    drawn. *)
Theorem midpoint_ellipse_flat xc yc rx :
  midpoint_ellipse xc yc rx 0 = Some (repeat (xc, yc) 4).
Proof.
  unfold midpoint_ellipse.
  replace (init rx 0) with (mk_state 0 0 0 0 (rx²) []) by (unfold init; f_equal; ring).
  cbn [while_loop cond1 dx dy Z.ltb Z.compare].
  unfold start_region2, region2, plot_ellipse_points, extend; cbn [x y dx dy p points].
  destruct (0 <? _); cbn; rewrite !Z.add_0_r, !Z.sub_0_r; reflexivity.
Qed.

(** ** Witnesses *)

Lemma ellipse_region1_invariant_witness :
  let s := region1 0 0 4 2 (init 4 2) in
  loop_reach cond1 (region1 0 0 4 2) (init 4 2) s /\
  dx s = 2 * 2² * x s /\ dy s = 2 * 4² * y s /\ p s = mid1 4 2 (x s) (y s).
Proof.
  intros s.
  assert (H : loop_reach cond1 (region1 0 0 4 2) (init 4 2) s)
    by (apply reach_step; [apply reach_init | reflexivity]).
  split; [exact H | exact (ellipse_region1_invariant 0 0 4 2 s H)].
Defined.

Lemma ellipse_region2_invariant_witness :
  let s1 := match while_loop (S (Z.to_nat (150²))) cond1 (region1 250 200 150 100)
                             (init 150 100) with Some s => s | None => init 150 100 end in
  while_loop (S (Z.to_nat (150²))) cond1 (region1 250 200 150 100) (init 150 100) = Some s1 /\
  p (start_region2 150 100 s1) =
    mid2 150 100 (x (start_region2 150 100 s1)) (y (start_region2 150 100 s1)).
Proof.
  intros s1.
  assert (H1 : while_loop (S (Z.to_nat (150²))) cond1 (region1 250 200 150 100)
                          (init 150 100) = Some s1) by (vm_compute; reflexivity).
  split; [exact H1 | exact (ellipse_region2_invariant 250 200 150 100 s1 _ H1 (reach_init _ _ _))].
Defined.

Lemma midpoint_ellipse_symmetric_witness :
  quad_closed 650 200 (match midpoint_ellipse 650 200 100 150 with Some l => l | None => [] end).
Proof. apply (midpoint_ellipse_symmetric 650 200 100 150). vm_compute. reflexivity. Defined.

End Ellipse.
