(* ===== verification/LineGraph.v ===== *)
(** * The line graph ([src/line_graph.py])

    [line_graph.py] carries its own copies of [bresenham_line] and
    [dda_line] (lines 4-59, the same code as [src/bresenham.py] and
    [src/DDA.py] without the comments), scales a dataset into the window
    with [normalize_data] and joins consecutive scaled points with the
    chosen line algorithm in [generate_graph_lines].

    The chart builder only relies on what a line rasterizer promises: the
    class [LineRasterizer] (first pixel = start, last pixel = end, never
    empty).  Its theorems are proved against the class; the instances for
    Bresenham and DDA discharge it from the closed forms of [Bresenham.v]
    and [DDA.v].

    [normalize_data] returns [[]] on an empty dataset and a pair
    [(normalized, bounds)] otherwise; the model's [norm_result] has one
    constructor per shape.  Data values are exact rationals; Python's
    [int()] is [py_int].  The two divisions by the ranges are [py_div],
    which raises [ZeroDivisionError] on a zero divisor as Python does;
    the guard [range_or_one] of lines 83-84 is what keeps them from
    raising when all values of an axis are equal. *)

From Stdlib Require Import ZArith Lia List QArith Qround Lqa Psatz.
From Stdlib Require String.
From Stdlib Require Import (notations) String.
From S2P Require Import Prelude Bresenham DDA.
Import ListNotations.
Open Scope Z_scope.

Module LineGraph.

(** ** The interface between the chart builder and the line algorithms *)

Class LineRasterizer (line : Z -> Z -> Z -> Z -> list point) : Prop := {
  raster_first x1 y1 x2 y2 : hd (0, 0) (line x1 y1 x2 y2) = (x1, y1);
  raster_last x1 y1 x2 y2 : last (line x1 y1 x2 y2) (0, 0) = (x2, y2);
  raster_nonempty x1 y1 x2 y2 : line x1 y1 x2 y2 <> []
}.

(** The copies of the two algorithms in [line_graph.py] (lines 4-36 and
    38-59) are the same code as the originals. *)
Definition bresenham_line : Z -> Z -> Z -> Z -> list point := Bresenham.bresenham_line.
Definition dda_line : Z -> Z -> Z -> Z -> list point := DDA.dda_line.

Lemma map_zseq_succ_nonempty {A} (f : Z -> A) n : map f (zseq (S n)) <> [].
Proof. rewrite zseq_S, map_app. intros H. apply app_eq_nil in H as [_ H]. discriminate. Qed.

#[export] Instance bresenham_rasterizer : LineRasterizer bresenham_line.
Proof.
  split; intros x1 y1 x2 y2; unfold bresenham_line.
  - apply Bresenham.bresenham_first_last.
  - apply Bresenham.bresenham_first_last.
  - rewrite Bresenham.bresenham_line_closed_form. unfold Bresenham.bresenham_spec. cbv zeta.
    destruct (_ >? _); rewrite Z2Nat.inj_add, Nat.add_comm by lia; apply map_zseq_succ_nonempty.
Qed.

#[export] Instance dda_rasterizer : LineRasterizer dda_line.
Proof.
  split; intros x1 y1 x2 y2; unfold dda_line.
  - apply DDA.dda_first_last.
  - apply DDA.dda_first_last.
  - rewrite DDA.dda_line_closed_form. unfold DDA.dda_spec. cbv zeta.
    destruct (_ =? 0); [discriminate|].
    rewrite Z2Nat.inj_add, Nat.add_comm by lia. apply map_zseq_succ_nonempty.
Qed.

(** ** [generate_graph_lines] (lines 101-113) *)

(** [line_func = bresenham_line if algorithm == 'bresenham' else dda_line] *)
Definition line_func (algorithm : String.string) : Z -> Z -> Z -> Z -> list point :=
  if String.eqb algorithm "bresenham"%string then bresenham_line else dda_line.

(** One iteration of [for i in range(len(data_points) - 1)]; the state is
    the loop index and [all_points]. *)
Definition graph_step (line : Z -> Z -> Z -> Z -> list point) (data_points : list point)
    (st : nat * list point) : nat * list point :=
  let (i, all_points) := st in
  let (x1, y1) := nth i data_points (0, 0) in
  let (x2, y2) := nth (S i) data_points (0, 0) in
  (S i, extend all_points (line x1 y1 x2 y2)).

Definition generate_graph_lines (data_points : list point) (algorithm : String.string) : list point :=
  snd (for_range (length data_points - 1) (graph_step (line_func algorithm) data_points)
                 (0%nat, [])).

(** The segments the chart is made of: one line per pair of consecutive
    data points. *)
Fixpoint consecutive_lines (line : Z -> Z -> Z -> Z -> list point) (l : list point)
  : list (list point) :=
  match l with
  | a :: ((b :: _) as t) => line (fst a) (snd a) (fst b) (snd b) :: consecutive_lines line t
  | _ => []
  end.

Lemma length_consecutive_lines line l :
  length (consecutive_lines line l) = (length l - 1)%nat.
Proof.
  induction l as [|a [|b l] IH]; [reflexivity | reflexivity |].
  change (S (length (consecutive_lines line (b :: l))) = length (b :: l))%nat.
  rewrite IH. simpl. lia.
Qed.

Lemma nth_consecutive_lines line l i :
  (S i < length l)%nat ->
  nth i (consecutive_lines line l) [] =
  line (fst (nth i l (0, 0))) (snd (nth i l (0, 0)))
       (fst (nth (S i) l (0, 0))) (snd (nth (S i) l (0, 0))).
Proof.
  revert i; induction l as [|a [|b l] IH]; intros i Hi; simpl in Hi; [lia | lia |].
  destruct i as [|i]; [reflexivity|].
  change (nth i (consecutive_lines line (b :: l)) [] =
          line (fst (nth i (b :: l) (0, 0))) (snd (nth i (b :: l) (0, 0)))
               (fst (nth (S i) (b :: l) (0, 0))) (snd (nth (S i) (b :: l) (0, 0)))).
  apply IH. simpl. lia.
Qed.

Lemma concat_firstn_S {A} (l : list (list A)) k :
  (k < length l)%nat -> concat (firstn (S k) l) = concat (firstn k l) ++ nth k l [].
Proof.
  revert k; induction l as [|a l IH]; intros k Hk; simpl in Hk; [lia|].
  destruct k as [|k]; [simpl; rewrite app_nil_r; reflexivity|].
  change (concat (a :: firstn (S k) l) = concat (a :: firstn k l) ++ nth k l []).
  cbn [concat]. rewrite IH by lia. apply app_assoc.
Qed.

(** The loop of [generate_graph_lines] concatenates the segments. *)
Lemma graph_loop line data k :
  (k <= length data - 1)%nat ->
  for_range k (graph_step line data) (0%nat, []) = (k, concat (firstn k (consecutive_lines line data))).
Proof.
  induction k as [|k IH]; intros Hk; [reflexivity|].
  rewrite for_range_S_r, IH by lia. unfold graph_step, extend.
  destruct (nth k data (0, 0)) as [x1 y1] eqn:E1.
  destruct (nth (S k) data (0, 0)) as [x2 y2] eqn:E2.
  rewrite concat_firstn_S by (rewrite length_consecutive_lines; lia).
  rewrite nth_consecutive_lines, E1, E2 by lia. reflexivity.
Qed.

(** C19 (refinement). [generate_graph_lines] is the concatenation, in
    dataset order, of the lines the chosen algorithm draws between each
    pair of consecutive data points. *)
Theorem generate_graph_lines_segments data_points algorithm :
  generate_graph_lines data_points algorithm =
  concat (consecutive_lines (line_func algorithm) data_points).
Proof.
  unfold generate_graph_lines. rewrite graph_loop by lia. cbn [snd].
  rewrite firstn_all2; [reflexivity|]. rewrite length_consecutive_lines. lia.
Qed.

Section AgainstTheInterface.
Context (line : Z -> Z -> Z -> Z -> list point) `{LineRasterizer line}.

Lemma in_hd_line x1 y1 x2 y2 : In (x1, y1) (line x1 y1 x2 y2).
Proof.
  rewrite <- (raster_first x1 y1 x2 y2) at 1.
  destruct (line x1 y1 x2 y2) eqn:E; [exfalso; exact (raster_nonempty _ _ _ _ E) | left; reflexivity].
Qed.

Lemma in_last_line x1 y1 x2 y2 : In (x2, y2) (line x1 y1 x2 y2).
Proof.
  rewrite <- (raster_last x1 y1 x2 y2) at 1. apply last_in, raster_nonempty.
Qed.

(** Every point of a dataset of two or more points is a pixel of one of
    its segments: as the start of the segment it opens, the last point as
    the end of the final segment. *)
Lemma consecutive_lines_cover l q :
  (2 <= length l)%nat -> In q l -> In q (concat (consecutive_lines line l)).
Proof.
  induction l as [|a [|b l] IH]; intros Hl Hq; simpl in Hl; [lia | lia |].
  change (In q (line (fst a) (snd a) (fst b) (snd b) ++ concat (consecutive_lines line (b :: l)))).
  apply in_app_iff. destruct Hq as [<-|Hq].
  - left. destruct a. apply in_hd_line.
  - destruct l as [|c l].
    + destruct Hq as [<-|[]]. left. destruct b. apply in_last_line.
    + right. apply IH; [simpl; lia | exact Hq].
Qed.
End AgainstTheInterface.

Lemma line_func_rasterizer algorithm : LineRasterizer (line_func algorithm).
Proof. unfold line_func. destruct (String.eqb _ _); typeclasses eauto. Qed.

(** C20 (safety). With either algorithm, the chart of a dataset of two or
    more points passes through every data point. *)
Theorem generate_graph_lines_through_points data_points algorithm q :
  (2 <= length data_points)%nat -> In q data_points ->
  In q (generate_graph_lines data_points algorithm).
Proof.
  intros Hl Hq. rewrite generate_graph_lines_segments.
  exact (consecutive_lines_cover _ (H := line_func_rasterizer algorithm) _ _ Hl Hq).
Qed.

(** ** [normalize_data] (lines 61-99) *)

(** Python's [min] and [max] of a non-empty list of numbers. *)
Definition py_min (l : list Q) : Q :=
  match l with
  | [] => 0%Q
  | v :: t => fold_left (fun m w => if Qle_bool m w then m else w) t v
  end.

Definition py_max (l : list Q) : Q :=
  match l with
  | [] => 0%Q
  | v :: t => fold_left (fun m w => if Qle_bool w m then m else w) t v
  end.

(** The two shapes of the result: [[]] for an empty dataset, and
    [(normalized, (x_min, x_max, y_min, y_max))] otherwise. *)
Inductive norm_result :=
| NormEmpty
| NormPair (normalized : list point) (bounds : Q * Q * Q * Q).

(** [range_or_one(lo, hi)] is the guard of lines 83-84:
    [hi - lo if hi != lo else 1]. *)
Definition range_or_one (lo hi : Q) : Q :=
  if Qeq_bool hi lo then 1%Q else (hi - lo)%Q.

(** The body of the loop of lines 92-97 for one data point: the two
    float divisions raise [ZeroDivisionError] on a zero range. *)
Definition normalize_point (x_min x_range y_min y_range : Q) (width height margin : Z)
    (q : Q * Q) : except point :=
  let draw_width := inject_Z (width - 2 * margin) in
  let draw_height := inject_Z (height - 2 * margin) in
  tx <- py_div (fst q - x_min) x_range ;;
  let pixel_x := (inject_Z margin + tx * draw_width)%Q in
  ty <- py_div (snd q - y_min) y_range ;;
  let pixel_y := (inject_Z height - inject_Z margin - ty * draw_height)%Q in
  Ok (py_int pixel_x, py_int pixel_y).

Definition normalize_data (data : list (Q * Q)) (width height margin : Z) : except norm_result :=
  match data with
  | [] => Ok NormEmpty
  | _ :: _ =>
      let x_values := map fst data in
      let y_values := map snd data in
      let x_min := py_min x_values in
      let x_max := py_max x_values in
      let y_min := py_min y_values in
      let y_max := py_max y_values in
      let x_range := range_or_one x_min x_max in
      let y_range := range_or_one y_min y_max in
      normalized <- map_except (normalize_point x_min x_range y_min y_range width height margin) data ;;
      Ok (NormPair normalized (x_min, x_max, y_min, y_max))
  end.

(** *** Lemmas on [min], [max] and the scale factor *)

Lemma fold_min_spec t m :
  (fold_left (fun m w => if Qle_bool m w then m else w) t m <= m)%Q /\
  (forall w, In w t -> fold_left (fun m w => if Qle_bool m w then m else w) t m <= w)%Q.
Proof.
  revert m; induction t as [|a t IH]; intros m; simpl.
  - split; [apply Qle_refl | intros w []].
  - destruct (Qle_bool m a) eqn:B.
    + apply Qle_bool_iff in B. destruct (IH m) as [H1 H2].
      split; [exact H1 | intros w [<-|Hw]; [lra | auto]].
    + apply not_true_iff_false in B. rewrite Qle_bool_iff in B. apply Qnot_le_lt in B.
      destruct (IH a) as [H1 H2]. split; [lra | intros w [<-|Hw]; [lra | auto]].
Qed.

Lemma fold_max_spec t m :
  (m <= fold_left (fun m w => if Qle_bool w m then m else w) t m)%Q /\
  (forall w, In w t -> w <= fold_left (fun m w => if Qle_bool w m then m else w) t m)%Q.
Proof.
  revert m; induction t as [|a t IH]; intros m; simpl.
  - split; [apply Qle_refl | intros w []].
  - destruct (Qle_bool a m) eqn:B.
    + apply Qle_bool_iff in B. destruct (IH m) as [H1 H2].
      split; [exact H1 | intros w [<-|Hw]; [lra | auto]].
    + apply not_true_iff_false in B. rewrite Qle_bool_iff in B. apply Qnot_le_lt in B.
      destruct (IH a) as [H1 H2]. split; [lra | intros w [<-|Hw]; [lra | auto]].
Qed.

Lemma py_min_le l w : In w l -> (py_min l <= w)%Q.
Proof.
  destruct l as [|v t]; [intros []|]. simpl. intros [<-|Hw];
    [apply (proj1 (fold_min_spec t _)) | apply (proj2 (fold_min_spec t v)), Hw].
Qed.

Lemma py_max_ge l w : In w l -> (w <= py_max l)%Q.
Proof.
  destruct l as [|v t]; [intros []|]. simpl. intros [<-|Hw];
    [apply (proj1 (fold_max_spec t _)) | apply (proj2 (fold_max_spec t v)), Hw].
Qed.

(** The guarded range is never zero, so neither division of the loop
    raises. *)
Lemma range_or_one_nonzero (lo hi : Q) : ~ (range_or_one lo hi == 0)%Q.
Proof.
  unfold range_or_one. destruct (Qeq_bool hi lo) eqn:B; [discriminate|].
  apply not_true_iff_false in B. rewrite Qeq_bool_iff in B. intros E. apply B. lra.
Qed.

(** The offset of a value from the minimum, as a fraction of the range,
    lies in [[0, 1]], also when all values are equal and the range is
    clamped to [1]. *)
Lemma ratio_unit (lo hi v : Q) :
  (lo <= v <= hi)%Q -> (0 <= (v - lo) / range_or_one lo hi <= 1)%Q.
Proof.
  intros [H1 H2]. unfold range_or_one. destruct (Qeq_bool hi lo) eqn:B.
  - apply Qeq_bool_iff in B. setoid_replace (v - lo)%Q with 0%Q by lra. split; discriminate.
  - apply not_true_iff_false in B. rewrite Qeq_bool_iff in B.
    assert (0 < hi - lo)%Q by (apply Qlt_minus_iff; destruct (Qlt_le_dec lo hi); [lra|];
                               exfalso; apply B; lra).
    split; [apply Qle_shift_div_l | apply Qle_shift_div_r]; auto; lra.
Qed.

(** The horizontal and the (inverted) vertical scalings of a fraction
    [t] of the range, truncated by [int()], stay inside the margins. *)
Lemma scaled_x_bounds (t : Q) (m w : Z) :
  (0 <= t <= 1)%Q -> 0 <= m -> 2 * m <= w ->
  m <= py_int (inject_Z m + t * inject_Z (w - 2 * m))%Q <= w - m.
Proof.
  intros Ht Hm Hw. apply py_int_bounds; [exact Hm|].
  assert (0 <= inject_Z (w - 2 * m))%Q by (change 0%Q with (inject_Z 0); rewrite <- Zle_Qle; lia).
  replace (w - m) with (m + (w - 2 * m)) by ring. rewrite inject_Z_plus. nra.
Qed.

Lemma scaled_y_bounds (t : Q) (m h : Z) :
  (0 <= t <= 1)%Q -> 0 <= m -> 2 * m <= h ->
  m <= py_int (inject_Z h - inject_Z m - t * inject_Z (h - 2 * m))%Q <= h - m.
Proof.
  intros Ht Hm Hh. apply py_int_bounds; [exact Hm|].
  assert (0 <= inject_Z (h - 2 * m))%Q by (change 0%Q with (inject_Z 0); rewrite <- Zle_Qle; lia).
  set (D := inject_Z (h - 2 * m)) in *.
  assert (ED : (inject_Z h - inject_Z m == D + inject_Z m)%Q)
    by (subst D; rewrite inject_Z_sub, inject_Z_mult; change (inject_Z 2) with 2%Q; ring).
  rewrite (inject_Z_sub h m), ED. nra.
Qed.

(** The fractions of the two coordinates of a data point. *)
Lemma data_ratios data q :
  In q data ->
  let xv := map fst data in let yv := map snd data in
  (0 <= (fst q - py_min xv) / range_or_one (py_min xv) (py_max xv) <= 1)%Q /\
  (0 <= (snd q - py_min yv) / range_or_one (py_min yv) (py_max yv) <= 1)%Q.
Proof.
  intros Hq xv yv.
  assert (Hx : In (fst q) xv) by (apply in_map, Hq).
  assert (Hy : In (snd q) yv) by (apply in_map, Hq).
  split; apply ratio_unit; split;
    [apply py_min_le, Hx | apply py_max_ge, Hx | apply py_min_le, Hy | apply py_max_ge, Hy].
Qed.

(** On a non-empty dataset the loop never raises: [normalize_data]
    returns the pair of the scaled points, computed with exact
    divisions, and the four bounds. *)
Lemma normalize_data_ok d ds width height margin :
  let data := d :: ds in
  let xv := map fst data in let yv := map snd data in
  let x_range := range_or_one (py_min xv) (py_max xv) in
  let y_range := range_or_one (py_min yv) (py_max yv) in
  normalize_data data width height margin =
  Ok (NormPair
        (map (fun q =>
           (py_int (inject_Z margin + ((fst q - py_min xv) / x_range) * inject_Z (width - 2 * margin))%Q,
            py_int (inject_Z height - inject_Z margin -
                    ((snd q - py_min yv) / y_range) * inject_Z (height - 2 * margin))%Q)) data)
        (py_min xv, py_max xv, py_min yv, py_max yv)).
Proof.
  intros data xv yv x_range y_range. unfold normalize_data. fold data xv yv x_range y_range.
  erewrite map_except_ok; [reflexivity|].
  intros q _. unfold normalize_point.
  rewrite !py_div_ok by apply range_or_one_nonzero. reflexivity.
Qed.

(** C21 (bounds). When the margins fit in the window, every normalized
    point lies in the drawing area:
    [margin <= px <= width - margin] and [margin <= py <= height - margin]. *)
Theorem normalize_data_in_box data width height margin pts bounds :
  0 <= margin -> 2 * margin <= width -> 2 * margin <= height ->
  normalize_data data width height margin = Ok (NormPair pts bounds) ->
  Forall (fun q => margin <= fst q <= width - margin /\ margin <= snd q <= height - margin) pts.
Proof.
  intros Hm Hw Hh E. destruct data as [|d ds]; [discriminate|].
  rewrite normalize_data_ok in E.
  match type of E with Ok (NormPair ?l _) = _ => assert (Hp : l = pts) by congruence end.
  subst pts. apply Forall_forall. intros q Hq.
  apply in_map_iff in Hq as [q0 [<- Hq0]]. cbn [fst snd].
  destruct (data_ratios _ q0 Hq0) as [Hx Hy].
  split; [apply scaled_x_bounds | apply scaled_y_bounds]; assumption.
Qed.

(** C22 (functional). A single data point has zero ranges on both axes;
    the guard of lines 83-84 replaces them by [1], so neither division
    raises [ZeroDivisionError], and the point lands at
    [(margin, height - margin)], the lower-left corner of the drawing
    area; the bounds are the point's coordinates. *)
Theorem normalize_data_single x y width height margin :
  normalize_data [(x, y)] width height margin =
  Ok (NormPair [(margin, height - margin)] (x, x, y, y)).
Proof.
  rewrite normalize_data_ok. cbn [map fst snd py_min py_max fold_left].
  unfold range_or_one. rewrite !Qeq_bool_refl. do 4 f_equal.
  - transitivity (py_int (inject_Z margin)); [|apply py_int_Z].
    apply (py_int_proper _ _). field.
  - transitivity (py_int (inject_Z (height - margin))); [|apply py_int_Z].
    apply (py_int_proper _ _). rewrite (inject_Z_sub height margin).
    setoid_replace ((y - y) / 1)%Q with 0%Q by field. ring.
Qed.

(** ** The demo datasets of [main] (lines 186-199) and witnesses *)

Definition sales_data : list (Q * Q) :=
  [(1, 20); (2, 35); (3, 30); (4, 50); (5, 45); (6, 60); (7, 55); (8, 70); (9, 75); (10, 85)]%Q.
Definition temperature_data : list (Q * Q) :=
  [(1, 15); (2, 18); (3, 22); (4, 25); (5, 28); (6, 32); (7, 30); (8, 27); (9, 23); (10, 20)]%Q.

Definition normalized_of (r : except norm_result) : list point :=
  match r with Ok (NormPair pts _) => pts | _ => [] end.

Lemma generate_graph_lines_through_points_witness :
  (2 <= length (normalized_of (normalize_data temperature_data 1000 700 80)))%nat /\
  In (80, 620) (normalized_of (normalize_data temperature_data 1000 700 80)) /\
  In (80, 620) (generate_graph_lines (normalized_of (normalize_data temperature_data 1000 700 80))
                                     "dda"%string).
Proof.
  assert (H1 : (2 <= length (normalized_of (normalize_data temperature_data 1000 700 80)))%nat)
    by (vm_compute; lia).
  assert (H2 : In (80, 620) (normalized_of (normalize_data temperature_data 1000 700 80)))
    by (apply In_of_existsb; vm_compute; reflexivity).
  split; [exact H1 | split; [exact H2 | exact (generate_graph_lines_through_points _ _ _ H1 H2)]].
Defined.

Lemma normalize_data_in_box_witness :
  let r := normalize_data sales_data 1000 700 80 in
  r = Ok (NormPair (normalized_of r) (1, 10, 20, 85)%Q) /\
  Forall (fun q => 80 <= fst q <= 1000 - 80 /\ 80 <= snd q <= 700 - 80) (normalized_of r).
Proof.
  intros r. assert (E : r = Ok (NormPair (normalized_of r) (1, 10, 20, 85)%Q)) by (vm_compute; reflexivity).
  split; [exact E | exact (normalize_data_in_box sales_data 1000 700 80 _ _ ltac:(lia) ltac:(lia) ltac:(lia) E)].
Defined.

(** The selector compares the name exactly: any other string, including
    ["Bresenham"], draws with DDA. *)
Example line_func_capitalised : line_func "Bresenham"%string = dda_line.
Proof. reflexivity. Qed.

(** An empty dataset gives the bare list [[]], which the caller in
    [main] (line 208) cannot unpack into [normalized_points, bounds]. *)
Example normalize_data_empty : normalize_data [] 1000 700 80 = Ok NormEmpty.
Proof. reflexivity. Qed.

End LineGraph.
