(* ===== verification/PieChart.v ===== *)
(** * The pie chart ([src/pie_chart.py], [create_pie_chart])

    [create_pie_chart(data, labels, colors, cx, cy, radius)] sums the
    data and walks [zip(data, labels, colors)] from the angle [-pi/2],
    giving each value a sector whose span is its share of [2 * pi].  The
    loop body is [pie_step] (lines 71-85), the loop [pie_loop], the
    function [create_pie_chart] (lines 64-87).  The sector dictionary is
    the record [sector]; labels and colors are opaque ([Label], [Color]).

    Values and angles are exact rationals.  [pi] is a parameter: the code
    uses [math.pi], a double, hence a rational; every theorem holds for
    every value of it.  The divisions [value / total] raise
    [ZeroDivisionError] when the total is zero: the model threads that
    exception through the loop with the [except] monad of the prelude.

    [sectors_from] is the loop without the exception; [pie_loop_ok]
    shows the loop computes it whenever the total is non-zero, and the
    theorems about the angles are proved on it.  They state what holds
    for the doubles of the source as well: when the function raises,
    and the order, contiguity and angle ordering of the sectors.  Identities that
    hold only in exact arithmetic, such as the last sector ending at
    exactly [-pi/2 + 2 * pi] or the percentages summing to exactly
    [100], are not claimed: in doubles they hold up to rounding only. *)

From Stdlib Require Import ZArith Lia List QArith Lqa.
From Stdlib Require String.
From Stdlib Require Import (notations) String.
From S2P Require Import Prelude.
Import ListNotations.
Open Scope Q_scope.

Module PieChart.

Section PieChart.
Context {Label Color : Type}.

(** ** The model *)

(** The [sector_info] dictionary (lines 74-82). *)
Record sector := mk_sector {
value : Q; percentage : Q; label : Label; color : Color;
start_angle : Q; end_angle : Q; mid_angle : Q }.

(** [sum(data)] *)
Definition py_sum (l : list Q) : Q := fold_left Qplus l 0.

(** [zip(data, labels, colors)]: as long as the shortest of the three. *)
Definition zip3 (data : list Q) (labels : list Label) (colors : list Color)
: list (Q * Label * Color) :=
combine (combine data labels) colors.

(** One iteration of the loop (lines 71-85); the loop state is
  [(current_angle, sectors)]. *)
Definition pie_step (pi total : Q) (item : Q * Label * Color) (st : Q * list sector)
: except (Q * list sector) :=
let '(value, label, color) := item in
let '(current_angle, sectors) := st in
q1 <- py_div value total ;;
let percentage := q1 * 100 in
q2 <- py_div value total ;;
let angle_size := q2 * 2 * pi in
let sector_info := mk_sector value percentage label color current_angle
                             (current_angle + angle_size) (current_angle + angle_size / 2) in
Ok (current_angle + angle_size, append sectors sector_info).

Fixpoint pie_loop (pi total : Q) (items : list (Q * Label * Color)) (st : Q * list sector)
: except (Q * list sector) :=
match items with
| [] => Ok st
| item :: rest => st' <- pie_step pi total item st ;; pie_loop pi total rest st'
end.

(** [create_pie_chart(data, labels, colors, cx, cy, radius)] (lines 64-87);
  the centre and radius are not used by the function. *)
Definition create_pie_chart (pi : Q) (data : list Q) (labels : list Label)
  (colors : list Color) (cx cy radius : Z) : except (list sector) :=
let total := py_sum data in
st <- pie_loop pi total (zip3 data labels colors) (- pi / 2, []) ;;
Ok (snd st).

(** ** The loop without the exception *)

Definition span (pi total v : Q) : Q := v / total * 2 * pi.

Fixpoint sectors_from (pi total : Q) (items : list (Q * Label * Color)) (a : Q) : list sector :=
match items with
| [] => []
| (v, l, c) :: rest =>
    mk_sector v (v / total * 100) l c a (a + span pi total v) (a + span pi total v / 2)
      :: sectors_from pi total rest (a + span pi total v)
end.

Definition angle_after (pi total : Q) (items : list (Q * Label * Color)) (a : Q) : Q :=
fold_left (fun a '(v, _, _) => a + span pi total v) items a.

Lemma pie_loop_ok pi total items a acc :
~ total == 0 ->
pie_loop pi total items (a, acc) =
Ok (angle_after pi total items a, acc ++ sectors_from pi total items a).
Proof.
intros Ht. revert a acc; induction items as [|[[v l] c] rest IH]; intros a acc.
- simpl. rewrite app_nil_r. reflexivity.
- cbn [pie_loop pie_step]. rewrite py_div_ok by exact Ht. cbn [bind].
  rewrite IH. unfold append. rewrite <- app_assoc. reflexivity.
Qed.

Lemma pie_loop_zero pi total items st :
total == 0 -> items <> [] -> pie_loop pi total items st = Raise ZeroDivisionError.
Proof.
intros Ht Hne. destruct items as [|[[v l] c] rest]; [congruence|].
destruct st as [a acc]. cbn [pie_loop pie_step]. unfold py_div.
rewrite (proj2 (Qeq_bool_iff total 0) Ht). reflexivity.
Qed.

(** ** Lemmas on the sectors *)

Definition values (items : list (Q * Label * Color)) : list Q := map (fun '(v, _, _) => v) items.

Lemma length_sectors_from pi total items a :
length (sectors_from pi total items a) = length items.
Proof.
revert a; induction items as [|[[v l] c] rest IH]; intros a; simpl; [reflexivity|].
rewrite IH. reflexivity.
Qed.

Lemma values_sectors_from pi total items a :
map value (sectors_from pi total items a) = values items.
Proof.
revert a; induction items as [|[[v l] c] rest IH]; intros a; simpl; [reflexivity|].
rewrite IH. reflexivity.
Qed.

Lemma start_sectors_from pi total items a :
items <> [] -> nth 0 (map start_angle (sectors_from pi total items a)) 0 = a.
Proof. destruct items as [|[[v l] c] rest]; [congruence | reflexivity]. Qed.

(** Each sector starts where the previous one ends. *)
Lemma chain_sectors_from pi total items a :
chain (fun s t => end_angle s = start_angle t) (sectors_from pi total items a).
Proof.
revert a; induction items as [|[[v l] c] rest IH]; intros a; [exact I|].
cbn [sectors_from]. specialize (IH (a + span pi total v)).
destruct rest as [|[[v' l'] c'] rest']; [exact I|].
cbn [sectors_from] in *. split; [reflexivity | exact IH].
Qed.

Lemma values_zip3 data labels colors :
(length data <= length labels)%nat -> (length data <= length colors)%nat ->
values (zip3 data labels colors) = data.
Proof.
revert labels colors; induction data as [|v data IH]; intros labels colors H1 H2; [reflexivity|].
destruct labels as [|l labels]; [simpl in H1; lia|].
destruct colors as [|c colors]; [simpl in H2; lia|].
simpl in *. f_equal. apply IH; lia.
Qed.

Lemma span_nonneg pi total v : 0 <= pi -> 0 < total -> 0 <= v -> 0 <= span pi total v.
Proof.
intros Hp Ht Hv. unfold span, Qdiv.
assert (0 < / total) by (apply Qinv_lt_0_compat; exact Ht).
repeat apply Qmult_le_0_compat; lra.
Qed.

(** ** Theorems *)

(** C23 (error). [create_pie_chart] raises [ZeroDivisionError] exactly
  when the data sum to zero and [zip] yields at least one item; with no
  items (empty data, labels or colors) it returns no sectors and no
  error, and a negative total raises nothing. *)
Theorem create_pie_chart_error pi data labels colors cx cy radius :
create_pie_chart pi data labels colors cx cy radius = Raise ZeroDivisionError <->
(py_sum data == 0 /\ zip3 data labels colors <> []).
Proof.
unfold create_pie_chart. cbv zeta.
destruct (Qeq_dec (py_sum data) 0) as [Hz|Hz].
- destruct (zip3 data labels colors) as [|it items] eqn:E.
  + simpl. split; [discriminate | intros [_ H]; congruence].
  + rewrite pie_loop_zero by (exact Hz || discriminate). simpl.
    split; [intros _; split; [exact Hz | discriminate] | reflexivity].
- rewrite pie_loop_ok by exact Hz. simpl. split; [discriminate | intros [H _]; contradiction].
Qed.

Lemma values_zip3_forall (P : Q -> Prop) data labels colors :
Forall P data -> Forall P (values (zip3 data labels colors)).
Proof.
intros Hd. revert labels colors; induction Hd as [|v data Hv Hd IH]; intros labels colors;
  [constructor|].
destruct labels as [|l labels], colors as [|c colors]; try constructor.
- exact Hv.
- apply IH.
Qed.

Lemma sectors_from_ordered pi total items :
0 <= pi -> 0 < total -> Forall (fun v => 0 <= v) (values items) ->
forall a, Forall (fun s => start_angle s <= mid_angle s <= end_angle s)
                 (sectors_from pi total items a).
Proof.
intros Hp Ht. induction items as [|[[v l] c] rest IH]; intros Hv a; [constructor|].
inversion Hv as [|? ? Hv0 Hrest]; subst. cbn [sectors_from].
pose proof (span_nonneg pi total v Hp Ht Hv0) as H0.
assert (0 <= span pi total v / 2) by (apply Qle_shift_div_l; [reflexivity | lra]).
assert (span pi total v / 2 <= span pi total v) by (apply Qle_shift_div_r; [reflexivity | lra]).
constructor; [cbn [start_angle mid_angle end_angle]; split; lra | apply IH, Hrest].
Qed.

Lemma create_pie_chart_ok pi data labels colors cx cy radius :
~ py_sum data == 0 ->
create_pie_chart pi data labels colors cx cy radius =
Ok (sectors_from pi (py_sum data) (zip3 data labels colors) (- pi / 2)).
Proof. intros Hz. unfold create_pie_chart. cbv zeta. rewrite pie_loop_ok by exact Hz. reflexivity. Qed.

(** C24 (functional). When the data do not sum to zero and every value
  has a label and a color, the sectors come in input order, one per
  value; the first starts at [-pi/2] and each starts at the very angle
  where the previous one ends, since [end_angle] and the next
  [current_angle] are the same sum [current_angle + angle_size]: the
  sectors are contiguous, without gap or overlap. *)
Theorem create_pie_chart_partition pi data labels colors cx cy radius :
~ py_sum data == 0 ->
(length data <= length labels)%nat -> (length data <= length colors)%nat ->
exists sectors,
  create_pie_chart pi data labels colors cx cy radius = Ok sectors /\
  map value sectors = data /\
  nth 0 (map start_angle sectors) 0 = - pi / 2 /\
  chain (fun s t => end_angle s = start_angle t) sectors.
Proof.
intros Hz Hl Hc. rewrite (create_pie_chart_ok _ _ _ _ _ _ _ Hz).
set (items := zip3 data labels colors).
assert (Hv : values items = data) by (apply values_zip3; assumption).
assert (Hne : items <> []) by (intros E; apply Hz; rewrite <- Hv, E; reflexivity).
eexists; split; [reflexivity|]. split; [rewrite values_sectors_from; exact Hv|].
split; [apply start_sectors_from, Hne | apply chain_sectors_from].
Qed.

(** C25 (bounds). With non-negative values, a positive total and
  [pi >= 0], every sector's angles are ordered:
  [start_angle <= mid_angle <= end_angle]. *)
Theorem create_pie_chart_ordered pi data labels colors cx cy radius sectors :
0 <= pi -> 0 < py_sum data -> Forall (fun v => 0 <= v) data ->
create_pie_chart pi data labels colors cx cy radius = Ok sectors ->
Forall (fun s => start_angle s <= mid_angle s <= end_angle s) sectors.
Proof.
intros Hp Ht Hv E. rewrite create_pie_chart_ok in E by (intros H; rewrite H in Ht; discriminate).
injection E as <-. apply sectors_from_ordered; [exact Hp | exact Ht |].
apply values_zip3_forall, Hv.
Qed.

End PieChart.

(** The double nearest to pi, [math.pi], as the rational it is. *)
Definition math_pi : Q := 884279719003555 # 281474976710656.

(** The demo data of [main] (lines 170-178). *)
Definition demo_data : list Q := [30; 45; 15; 60; 25].
Definition demo_labels : list String.string :=
  ["Product A"; "Product B"; "Product C"; "Product D"; "Product E"]%string.
Definition demo_colors : list (Q * Q * Q) :=
  [(1, 2 # 10, 2 # 10); (2 # 10, 8 # 10, 2 # 10); (2 # 10, 4 # 10, 1);
   (1, 8 # 10, 2 # 10); (1, 4 # 10, 8 # 10)].

Lemma demo_sum_nonzero : ~ py_sum demo_data == 0.
Proof. intros H. vm_compute in H. discriminate. Qed.

Lemma create_pie_chart_partition_witness :
  ~ py_sum demo_data == 0 /\
  exists sectors,
    create_pie_chart math_pi demo_data demo_labels demo_colors 400 350 200 = Ok sectors /\
    map value sectors = demo_data /\
    nth 0 (map start_angle sectors) 0 = - math_pi / 2 /\
    chain (fun s t => end_angle s = start_angle t) sectors.
Proof.
  split; [exact demo_sum_nonzero|].
  apply (create_pie_chart_partition math_pi demo_data demo_labels demo_colors 400 350 200);
    [exact demo_sum_nonzero | simpl; lia | simpl; lia].
Defined.

Lemma create_pie_chart_ordered_witness :
  let r := create_pie_chart math_pi demo_data demo_labels demo_colors 400 350 200 in
  let sectors := match r with Ok l => l | Raise _ => [] end in
  r = Ok sectors /\ Forall (fun s => start_angle s <= mid_angle s <= end_angle s) sectors.
Proof.
  intros r sectors.
  assert (E : r = Ok sectors) by (vm_compute; reflexivity).
  split; [exact E|].
  apply (create_pie_chart_ordered math_pi demo_data demo_labels demo_colors 400 350 200 sectors);
    [vm_compute; discriminate | vm_compute; reflexivity
    | repeat constructor; vm_compute; discriminate | exact E].
Defined.

(** A zero total with data raises; an empty dataset returns no sectors
    and raises nothing; a negative total raises nothing either. *)
Example create_pie_chart_zero_total :
  create_pie_chart (Label := nat) (Color := nat) math_pi [0; 0] [1; 2]%nat [1; 2]%nat 0 0 1
  = Raise ZeroDivisionError.
Proof. reflexivity. Qed.

Example create_pie_chart_empty :
  create_pie_chart (Label := nat) (Color := nat) math_pi [] [] [] 0 0 1 = Ok [].
Proof. reflexivity. Qed.

(** With fewer labels than values, [zip] drops the last values but the
    total still counts them: the sectors cover half of the circle. *)
Example create_pie_chart_short_labels :
  exists sectors,
    create_pie_chart math_pi [10; 10] [1]%nat [1; 2]%nat 0 0 1 = Ok sectors /\
    last (map end_angle sectors) 0 == - math_pi / 2 + math_pi.
Proof. eexists; split; [vm_compute; reflexivity | vm_compute; reflexivity]. Qed.

End PieChart.
