(* ===== verification/BresenhamApp.v ===== *)
(** * The Bresenham demo program ([src/bresenham.py], [draw_line_points], [main])

    [main] rasterises ten demo segments with [Bresenham.bresenham_line],
    prints one line of information per segment, and then redraws all of
    them every frame, each segment as one [GL_POINTS] primitive in its
    colour.  [draw_line_points] is the drawing function, [lines] the demo
    data, [line_info] the printed fields, [setup] the OpenGL set-up,
    [frame] the body of the window loop, and [main] the whole program
    through the shell [Shell.glfw_main].

    The theorems: drawing a point list and reading the primitive back
    from the frame gives the pixels in order, each in the segment's
    colour; every frame of [main] shows exactly the ten rasterised
    segments at the point size 3 of the set-up; and the first frame is
    cleared with OpenGL's default transparent black, because the loop
    calls [glClear] before [glClearColor]. *)

From Stdlib Require Import ZArith QArith List Lia.
From Stdlib Require String.
From Stdlib Require Import (notations) String.
From ITree Require Import ITree.
From S2P Require Import Prelude GL Shell Bresenham.
Import ListNotations.

Module BresenhamApp.
Import GL Shell.
Local Open Scope string_scope.
Local Open Scope list_scope.

(** [draw_line_points(points, color)] (lines 47-52). *)
Definition draw_line_points (points : list point) (c : Q * Q * Q) : list cmd :=
  let '(r, g, b) := c in
  [glColor3f r g b; glBegin GL_POINTS] ++ vertices (map of_point points) ++ [glEnd].

Definition width : Z := 800.
Definition height : Z := 600.

(** The demo segments and their colours (lines 76-94). *)
Definition lines : list ((Z * Z * Z * Z) * (Q * Q * Q)) :=
  [((100, 300, 400, 350)%Z, (1, 0, 0)%Q); ((100, 200, 400, 150)%Z, (1, 0, 0)%Q);
   ((450, 300, 750, 300)%Z, (1, 0, 0)%Q);
   ((200, 100, 250, 500)%Z, (0, 1, 0)%Q); ((350, 500, 400, 100)%Z, (0, 1, 0)%Q);
   ((600, 100, 600, 500)%Z, (0, 1, 0)%Q);
   ((100, 100, 300, 300)%Z, (0, 0, 1)%Q); ((500, 100, 700, 300)%Z, (0, 0, 1)%Q);
   ((50, 450, 350, 100)%Z, (1, 1, 0)%Q); ((450, 450, 750, 150)%Z, (1, 1, 0)%Q)].

(** The slope class printed for a segment (line 104). *)
Definition slope_type (dx dy : Z) : String.string :=
  if Z.gtb dx dy then "|m| < 1" else if Z.ltb dx dy then "|m| >= 1" else "|m| = 1".

(** The fields of the [print] of line 105. *)
Definition line_info (l : (Z * Z * Z * Z) * (Q * Q * Q)) : list field :=
  let '((x1, y1, x2, y2), _) := l in
  let points := Bresenham.bresenham_line x1 y1 x2 y2 in
  let dx := Z.abs (x2 - x1) in
  let dy := Z.abs (y2 - y1) in
  [FStr "Line ("; FInt x1; FStr ","; FInt y1; FStr ") to ("; FInt x2; FStr ",";
   FInt y2; FStr "): dx="; FInt dx; FStr ", dy="; FInt dy; FStr ", ";
   FStr (slope_type dx dy); FStr ", points="; FInt (Z.of_nat (length points))].

(** [all_line_data] (lines 96-99). *)
Definition all_line_data (ls : list ((Z * Z * Z * Z) * (Q * Q * Q)))
  : list (list point * (Q * Q * Q)) :=
  map (fun l => let '((x1, y1, x2, y2), c) := l in (Bresenham.bresenham_line x1 y1 x2 y2, c)) ls.

(** Lines 67-74. *)
Definition setup : list cmd :=
  [glViewport 0 0 width height; glMatrixMode GL_PROJECTION; glLoadIdentity;
   glOrtho 0 (inject_Z width) (inject_Z height) 0 (-1) 1;
   glMatrixMode GL_MODELVIEW; glLoadIdentity; glPointSize 3].

(** The body of the window loop (lines 108-112). *)
Definition frame (data : list (list point * (Q * Q * Q))) : list cmd :=
  [glClear GL_COLOR_BUFFER_BIT; glClearColor (1#10) (1#10) (1#10) 1] ++
  flat_map (fun d => draw_line_points (fst d) (snd d)) data.

Definition prologue : itree glfwE unit :=
  ITree.bind (emit setup) (fun _ => emit_prints (map line_info lines)).

(** [main()] (lines 54-117). *)
Definition main : itree glfwE unit :=
  glfw_main width height "Bresenham Line Drawing Algorithm"
    (ITree.bind prologue (fun _ => render_loop (frame (all_line_data lines)))).

(** ** Lemmas *)

Definition as_vertices (data : list (list point * (Q * Q * Q))) :=
  map (fun d => (map of_point (fst d), snd d)) data.

Lemma bresenham_frame_points data :
  frame data = points_frame (mk_rgba (1#10) (1#10) (1#10) 1) (as_vertices data).
Proof.
  unfold frame, points_frame, as_vertices. f_equal.
  induction data as [|[pts [[r g] b]] data IH]; [reflexivity|]. cbn. rewrite IH. reflexivity.
Qed.

Lemma bresenham_after_setup_idle : idle (exec_all initial setup).
Proof. vm_compute. auto. Qed.

Lemma bresenham_after_setup_fields :
  clear_color (exec_all initial setup) = mk_rgba 0 0 0 0 /\ point_size (exec_all initial setup) = 3%Q /\
  line_width (exec_all initial setup) = 1%Q.
Proof. vm_compute. auto. Qed.

(** ** Theorems *)

(** C30 (roundtrip). [draw_line_points] from an idle context appends one
    [GL_POINTS] primitive to the frame and leaves the context idle; every
    vertex of the primitive has the segment's colour, and converting the
    vertices back to ints gives the pixel list, in order. *)
Theorem draw_line_points_roundtrip s pts c :
  idle s ->
  exists vs,
    GL.frame (exec_all s (draw_line_points pts c)) =
      GL.frame s ++ [Drew GL_POINTS (point_size s) (line_width s) vs] /\
    idle (exec_all s (draw_line_points pts c)) /\
    map fst vs = repeat (rgb c) (length pts) /\
    map (fun v => (py_int (fst (snd v)), py_int (snd (snd v)))) vs = pts.
Proof.
  intros Hs. destruct c as [[r g] b].
  unfold draw_line_points. rewrite exec_colored_block by exact Hs.
  exists (map (fun v => (mk_rgba r g b 1, v)) (map of_point pts)).
  split; [destruct s; reflexivity|]. split; [auto with raster|].
  rewrite !map_map. split.
  - induction pts as [|q pts IH]; [reflexivity | cbn; f_equal; exact IH].
  - induction pts as [|[x y] pts IH]; [reflexivity|]. cbn in *. rewrite !py_int_Z, IH. reflexivity.
Qed.

(** C31 (functional). With a fresh OpenGL context, [glfw.init] and the
    window succeeding and the user closing the window after [n + 1]
    frames, [main] returns, and the pictures it shows are the ten
    rasterised segments as [GL_POINTS] of size 3 in their colours; the
    first picture is cleared with OpenGL's initial transparent black and
    only the later ones with the grey [(0.1, 0.1, 0.1)] the loop sets,
    since the loop calls [glClear] before [glClearColor]. *)
Theorem bresenham_main_frames en n :
  init_ok en = true -> window_ok en = true -> open_frames en = Some (S n) ->
  ctx en = initial ->
  exists tr en', runs en main tr en' tt /\
    swaps tr =
      (Cleared (mk_rgba 0 0 0 0) :: drawn_points 3 1 (as_vertices (all_line_data lines))) ::
      repeat (Cleared (mk_rgba (1#10) (1#10) (1#10) 1) ::
              drawn_points 3 1 (as_vertices (all_line_data lines))) n.
Proof.
  intros Hi Hw Hn Hc. unfold main, prologue. rewrite bresenham_frame_points.
  pose proof (points_main_frames width height "Bresenham Line Drawing Algorithm" setup
              (map line_info lines) (mk_rgba (1#10) (1#10) (1#10) 1)
              (as_vertices (all_line_data lines)) en n Hi Hw Hn) as H.
  rewrite Hc in H. pose proof bresenham_after_setup_idle as Hs.
  destruct bresenham_after_setup_fields as (Hcc & Hps & Hlw).
  destruct (H Hs) as (tr & en' & Hr & Hsw).
  exists tr, en'. split; [exact Hr|]. rewrite Hsw, Hcc, Hps, Hlw. reflexivity.
Qed.

(** ** Witnesses *)

Lemma draw_line_points_roundtrip_witness :
  idle initial /\
  exists vs,
    GL.frame (exec_all initial (draw_line_points [(1, 2); (3, 4)]%Z (1, 0, 0)%Q)) =
      GL.frame initial ++ [Drew GL_POINTS (point_size initial) (line_width initial) vs] /\
    idle (exec_all initial (draw_line_points [(1, 2); (3, 4)]%Z (1, 0, 0)%Q)) /\
    map fst vs = repeat (rgb (1, 0, 0)%Q) (length [(1, 2); (3, 4)]%Z) /\
    map (fun v => (py_int (fst (snd v)), py_int (snd (snd v)))) vs = [(1, 2); (3, 4)]%Z.
Proof.
  assert (H : idle initial) by (repeat split).
  split; [exact H | exact (draw_line_points_roundtrip initial _ _ H)].
Defined.

Lemma bresenham_main_frames_witness :
  let en := mk_env true true (Some 1%nat) initial in
  init_ok en = true /\ window_ok en = true /\ open_frames en = Some 1%nat /\ ctx en = initial /\
  exists tr en', runs en main tr en' tt /\
    swaps tr =
      (Cleared (mk_rgba 0 0 0 0) :: drawn_points 3 1 (as_vertices (all_line_data lines))) ::
      repeat (Cleared (mk_rgba (1#10) (1#10) (1#10) 1) ::
              drawn_points 3 1 (as_vertices (all_line_data lines))) 0.
Proof.
  intros en. do 4 (split; [reflexivity|]).
  exact (bresenham_main_frames en 0 eq_refl eq_refl eq_refl eq_refl).
Defined.

End BresenhamApp.
