(* ===== verification/DDAApp.v ===== *)
(** * The DDA demo program ([src/DDA.py], [draw_line_points], [main])

    [main] rasterises five demo segments with [DDA.dda_line], gathers all
    their pixels into one list ([all_points]) and draws that list every
    frame as a single white [GL_POINTS] primitive.  Unlike the Bresenham
    program, [draw_line_points] takes no colour: the loop sets the colour
    with [glColor3f(1.0, 1.0, 1.0)] before calling it.  The program
    prints nothing.

    The theorem: with a fresh context and the window closed after
    [n + 1] frames, [main] returns and every frame shows the one white
    primitive of point size 2 holding the pixels of the five segments in
    order; as in the Bresenham program the first frame is cleared before
    the clear colour is set. *)

From Stdlib Require Import ZArith QArith List Lia.
From Stdlib Require String.
From Stdlib Require Import (notations) String.
From ITree Require Import ITree.
From S2P Require Import Prelude GL Shell DDA.
Import ListNotations.

Module DDAApp.
Import GL Shell.
Local Open Scope string_scope.
Local Open Scope list_scope.

(** [draw_line_points(points)] (lines 30-34). *)
Definition draw_line_points (points : list point) : list cmd :=
  [glBegin GL_POINTS] ++ vertices (map of_point points) ++ [glEnd].

Definition width : Z := 800.
Definition height : Z := 600.

(** The demo segments (lines 58-64). *)
Definition lines : list (Z * Z * Z * Z) :=
  [(100, 100, 700, 500); (400, 50, 400, 550); (50, 300, 750, 300);
   (200, 150, 600, 450); (150, 500, 650, 100)]%Z.

(** [all_points] (lines 66-69): [all_points.extend(dda_line(...))]. *)
Definition all_points (ls : list (Z * Z * Z * Z)) : list point :=
  flat_map (fun l => let '(x1, y1, x2, y2) := l in DDA.dda_line x1 y1 x2 y2) ls.

(** Lines 49-56. *)
Definition setup : list cmd :=
  [glViewport 0 0 width height; glMatrixMode GL_PROJECTION; glLoadIdentity;
   glOrtho 0 (inject_Z width) (inject_Z height) 0 (-1) 1;
   glMatrixMode GL_MODELVIEW; glLoadIdentity; glPointSize 2].

(** The body of the window loop (lines 72-77). *)
Definition frame (pts : list point) : list cmd :=
  [glClear GL_COLOR_BUFFER_BIT; glClearColor 0 0 0 1; glColor3f 1 1 1] ++
  draw_line_points pts.

Definition prologue : itree glfwE unit :=
  ITree.bind (emit setup) (fun _ => emit_prints []).

(** [main()] (lines 36-82). *)
Definition main : itree glfwE unit :=
  glfw_main width height "DDA Line Drawing Algorithm"
    (ITree.bind prologue (fun _ => render_loop (frame (all_points lines)))).

(** ** Lemmas *)

Lemma dda_frame_points pts :
  frame pts = points_frame (mk_rgba 0 0 0 1) [(map of_point pts, (1, 1, 1)%Q)].
Proof. unfold frame, points_frame, draw_line_points. cbn. rewrite app_nil_r. reflexivity. Qed.

Lemma dda_after_setup_facts :
  idle (exec_all initial setup) /\ clear_color (exec_all initial setup) = mk_rgba 0 0 0 0 /\
  point_size (exec_all initial setup) = 2%Q /\ line_width (exec_all initial setup) = 1%Q.
Proof. vm_compute. repeat split; reflexivity. Qed.

(** ** Theorem *)

(** C32 (functional). With a fresh OpenGL context, [glfw.init] and the
    window succeeding and the user closing the window after [n + 1]
    frames, [main] returns, and every picture it shows is one white
    [GL_POINTS] primitive of size 2 holding the DDA pixels of the five
    segments, in order; the first picture is cleared with transparent
    black, the later ones with the opaque black the loop sets. *)
Theorem dda_main_frames en n :
  init_ok en = true -> window_ok en = true -> open_frames en = Some (S n) ->
  ctx en = initial ->
  exists tr en', runs en main tr en' tt /\
    swaps tr =
      (Cleared (mk_rgba 0 0 0 0) :: drawn_points 2 1 [(map of_point (all_points lines), (1, 1, 1)%Q)]) ::
      repeat (Cleared (mk_rgba 0 0 0 1) ::
              drawn_points 2 1 [(map of_point (all_points lines), (1, 1, 1)%Q)]) n.
Proof.
  intros Hi Hw Hn Hc. unfold main, prologue. rewrite dda_frame_points.
  destruct dda_after_setup_facts as (Hs & Hcc & Hps & Hlw).
  pose proof (points_main_frames width height "DDA Line Drawing Algorithm" setup []
              (mk_rgba 0 0 0 1) [(map of_point (all_points lines), (1, 1, 1)%Q)] en n Hi Hw Hn) as H.
  rewrite Hc in H.
  destruct (H Hs) as (tr & en' & Hr & Hsw).
  exists tr, en'. split; [exact Hr|]. rewrite Hsw, Hcc, Hps, Hlw. reflexivity.
Qed.

(** ** Witness *)

Lemma dda_main_frames_witness :
  let en := mk_env true true (Some 1%nat) initial in
  init_ok en = true /\ window_ok en = true /\ open_frames en = Some 1%nat /\ ctx en = initial /\
  exists tr en', runs en main tr en' tt /\
    swaps tr =
      (Cleared (mk_rgba 0 0 0 0) :: drawn_points 2 1 [(map of_point (all_points lines), (1, 1, 1)%Q)]) ::
      repeat (Cleared (mk_rgba 0 0 0 1) ::
              drawn_points 2 1 [(map of_point (all_points lines), (1, 1, 1)%Q)]) 0.
Proof.
  intros en. do 4 (split; [reflexivity|]).
  exact (dda_main_frames en 0 eq_refl eq_refl eq_refl eq_refl).
Defined.

End DDAApp.
