(* ===== verification/CircleApp.v ===== *)
(** * The midpoint-circle demo program ([src/mid_point_circle.py], drawing and [main])

    [main] rasterises six demo circles with [Circle.midpoint_circle],
    prints the number of points of each, and redraws them every frame,
    each as one [GL_POINTS] primitive in its colour ([draw_points]).
    The file also models [draw_filled_circle], which [main] never calls.
    Its docstring promises a filled circle drawn with horizontal lines
    between symmetric points of the midpoint algorithm.  The code sets up
    [x], [y] and [p] of that algorithm but never uses them, and draws
    every row from [xc - r] to [xc + r].

    The theorems: [draw_filled_circle] fills the whole square
    [[xc - r, xc + r] x [yc - r, yc + r]], corners included, not the
    disc; and every frame of [main] shows the six circles as computed by
    [Circle.midpoint_circle], at point size 2. *)

From Stdlib Require Import ZArith QArith List Lia.
From Stdlib Require String.
From Stdlib Require Import (notations) String.
From ITree Require Import ITree.
From S2P Require Import Prelude GL Shell Circle.
Import ListNotations.

Module CircleApp.
Import GL Shell.
Local Open Scope string_scope.
Local Open Scope list_scope.

(** [draw_points(points, color)] (lines 43-48). *)
Definition draw_points (points : list point) (c : Q * Q * Q) : list cmd :=
  let '(r, g, b) := c in
  [glColor3f r g b; glBegin GL_POINTS] ++ vertices (map of_point points) ++ [glEnd].

(** [draw_filled_circle(xc, yc, r, color)] (lines 50-65); the unused
    locals [x], [y], [p] of lines 57-59 have no effect. *)
Definition draw_filled_circle (xc yc r : Z) (c : Q * Q * Q) : list cmd :=
  let '(cr, cg, cb) := c in
  [glColor4f cr cg cb (3#10); glBegin GL_LINES] ++
  flat_map (fun i => [glVertex2f (inject_Z (xc - r)) (inject_Z (yc + i));
                      glVertex2f (inject_Z (xc + r)) (inject_Z (yc + i))])
           (py_range (- r) (r + 1)) ++
  [glEnd].

Definition width : Z := 800.
Definition height : Z := 600.

(** The demo circles (lines 93-101). *)
Definition circles : list (Z * Z * Z * (Q * Q * Q)) :=
  [(200, 150, 80, (1, 0, 0)%Q); (400, 300, 120, (0, 1, 0)%Q); (600, 150, 60, (0, 0, 1)%Q);
   (200, 450, 100, (1, 1, 0)%Q); (600, 450, 90, (1, 0, 1)%Q); (400, 150, 40, (0, 1, 1)%Q)]%Z.

(** [midpoint_circle(xc, yc, r)] as [main] uses it; the model's fuel
    never runs out ([Circle.midpoint_circle_terminates]). *)
Definition circle_points (xc yc r : Z) : list point :=
  match Circle.midpoint_circle xc yc r with Some pts => pts | None => [] end.

(** [all_circle_data] (lines 104-107). *)
Definition all_circle_data (cs : list (Z * Z * Z * (Q * Q * Q))) : list (list point * (Q * Q * Q)) :=
  map (fun c => let '(xc, yc, r, col) := c in (circle_points xc yc r, col)) cs.

(** The fields of the [print] of line 109. *)
Definition circle_info (c : Z * Z * Z * (Q * Q * Q)) : list field :=
  let '(xc, yc, r, _) := c in
  [FStr "Circle at ("; FInt xc; FStr ","; FInt yc; FStr ") with radius "; FInt r;
   FStr ": "; FInt (Z.of_nat (length (circle_points xc yc r))); FStr " points generated"].

(** Lines 80-90. *)
Definition setup : list cmd :=
  [glViewport 0 0 width height; glMatrixMode GL_PROJECTION; glLoadIdentity;
   glOrtho 0 (inject_Z width) (inject_Z height) 0 (-1) 1;
   glMatrixMode GL_MODELVIEW; glLoadIdentity;
   glEnable GL_BLEND; glBlendFunc GL_SRC_ALPHA GL_ONE_MINUS_SRC_ALPHA; glPointSize 2].

(** The body of the window loop (lines 112-116). *)
Definition frame (data : list (list point * (Q * Q * Q))) : list cmd :=
  [glClear GL_COLOR_BUFFER_BIT; glClearColor (5#100) (5#100) (5#100) 1] ++
  flat_map (fun d => draw_points (fst d) (snd d)) data.

Definition prologue : itree glfwE unit :=
  ITree.bind (emit setup) (fun _ => emit_prints (map circle_info circles)).

(** [main()] (lines 67-121). *)
Definition main : itree glfwE unit :=
  glfw_main width height "Mid-Point Circle Drawing Algorithm"
    (ITree.bind prologue (fun _ => render_loop (frame (all_circle_data circles)))).

(** ** Lemmas *)

Definition as_vertices (data : list (list point * (Q * Q * Q))) :=
  map (fun d => (map of_point (fst d), snd d)) data.

Lemma circle_frame_points data :
  frame data = points_frame (mk_rgba (5#100) (5#100) (5#100) 1) (as_vertices data).
Proof.
  unfold frame, points_frame, as_vertices. f_equal.
  induction data as [|[pts [[r g] b]] data IH]; [reflexivity|]. cbn. rewrite IH. reflexivity.
Qed.

Lemma circle_after_setup_facts :
  idle (exec_all initial setup) /\ clear_color (exec_all initial setup) = mk_rgba 0 0 0 0 /\
  point_size (exec_all initial setup) = 2%Q /\ line_width (exec_all initial setup) = 1%Q.
Proof. vm_compute. repeat split; reflexivity. Qed.

(** The rows of the fill: one segment per [i] in [range(-r, r + 1)]. *)
Definition fill_rows (xc yc r : Z) : list (vertex * vertex) :=
  map (fun i => ((inject_Z (xc - r), inject_Z (yc + i)), (inject_Z (xc + r), inject_Z (yc + i))))
      (py_range (- r) (r + 1)).

Lemma exec_draw_filled_circle s xc yc r c :
  idle s ->
  exists vs,
    GL.frame (exec_all s (draw_filled_circle xc yc r c)) =
      GL.frame s ++ [Drew GL_LINES (point_size s) (line_width s) vs] /\
    line_pairs (map snd vs) = fill_rows xc yc r.
Proof.
  intros Hs. destruct c as [[cr cg] cb]. unfold draw_filled_circle.
  set (vs := flat_map (fun i => [(inject_Z (xc - r), inject_Z (yc + i));
                                 (inject_Z (xc + r), inject_Z (yc + i))]) (py_range (- r) (r + 1))).
  assert (E : flat_map (fun i => [glVertex2f (inject_Z (xc - r)) (inject_Z (yc + i));
                                  glVertex2f (inject_Z (xc + r)) (inject_Z (yc + i))])
                       (py_range (- r) (r + 1)) = vertices vs).
  { unfold vs, vertices. rewrite !flat_map_concat_map, concat_map, map_map. reflexivity. }
  rewrite E. change ([glColor4f cr cg cb (3#10); glBegin GL_LINES] ++ ?l)
    with ([glColor4f cr cg cb (3#10)] ++ [glBegin GL_LINES] ++ l).
  rewrite exec_all_app. cbn [exec_all fold_left exec].
  rewrite exec_block by (apply idle_with_color, Hs).
  exists (map (fun v => (mk_rgba cr cg cb (3#10), v)) vs). split; [destruct s; reflexivity|].
  rewrite map_map. cbn. unfold vs, fill_rows. clear E vs.
  induction (py_range (- r) (r + 1)) as [|i l IH]; [reflexivity | cbn; rewrite IH; reflexivity].
Qed.

(** ** Theorems *)

(** C33 (functional). [draw_filled_circle] fills the square, not the
    disc: it draws one [GL_LINES] primitive whose segments are the rows
    [yc + i] from [xc - r] to [xc + r], for [i] in [range(-r, r + 1)];
    so every integer point of [[xc - r, xc + r] x [yc - r, yc + r]] lies on
    a drawn segment, the corner [(xc + r, yc + r)] included, which is
    outside the circle when [r > 0]. *)
Theorem draw_filled_circle_square s xc yc r c x y :
  idle s -> xc - r <= x <= xc + r -> yc - r <= y <= yc + r ->
  exists vs,
    GL.frame (exec_all s (draw_filled_circle xc yc r c)) =
      GL.frame s ++ [Drew GL_LINES (point_size s) (line_width s) vs] /\
    exists a b,
      In ((inject_Z a, inject_Z y), (inject_Z b, inject_Z y)) (line_pairs (map snd vs)) /\
      a <= x <= b.
Proof.
  intros Hs Hx Hy. destruct (exec_draw_filled_circle s xc yc r c Hs) as [vs [Hf Hp]].
  exists vs. split; [exact Hf|]. exists (xc - r), (xc + r). split; [|lia].
  rewrite Hp. unfold fill_rows. apply in_map_iff. exists (y - yc).
  split; [do 3 f_equal; ring | apply in_py_range; lia].
Qed.

(** Every frame of [main] shows the six circles of [Circle.midpoint_circle]
    as [GL_POINTS] of size 2 in their colours. *)
Theorem circle_main_frames en n :
  init_ok en = true -> window_ok en = true -> open_frames en = Some (S n) ->
  ctx en = initial ->
  exists tr en', runs en main tr en' tt /\
    swaps tr =
      (Cleared (mk_rgba 0 0 0 0) :: drawn_points 2 1 (as_vertices (all_circle_data circles))) ::
      repeat (Cleared (mk_rgba (5#100) (5#100) (5#100) 1) ::
              drawn_points 2 1 (as_vertices (all_circle_data circles))) n.
Proof.
  intros Hi Hw Hn Hc. unfold main, prologue. rewrite circle_frame_points.
  destruct circle_after_setup_facts as (Hs & Hcc & Hps & Hlw).
  pose proof (points_main_frames width height "Mid-Point Circle Drawing Algorithm" setup
              (map circle_info circles) (mk_rgba (5#100) (5#100) (5#100) 1)
              (as_vertices (all_circle_data circles)) en n Hi Hw Hn) as H.
  rewrite Hc in H.
  destruct (H Hs) as (tr & en' & Hr & Hsw).
  exists tr, en'. split; [exact Hr|]. rewrite Hsw, Hcc, Hps, Hlw. reflexivity.
Qed.

(** ** Witness *)

(** The fill of radius 3 around [(10, 10)] covers the corner [(13, 13)],
    which is [sqrt 18 > 3] away from the centre. *)
Lemma draw_filled_circle_square_witness :
  idle initial /\ 10 - 3 <= 13 <= 10 + 3 /\ 10 - 3 <= 13 <= 10 + 3 /\
  exists vs,
    GL.frame (exec_all initial (draw_filled_circle 10 10 3 (1, 1, 1)%Q)) =
      GL.frame initial ++ [Drew GL_LINES (point_size initial) (line_width initial) vs] /\
    exists a b,
      In ((inject_Z a, inject_Z 13), (inject_Z b, inject_Z 13)) (line_pairs (map snd vs)) /\
      a <= 13 <= b.
Proof.
  assert (H : idle initial) by (repeat split).
  split; [exact H|]. split; [lia|]. split; [lia|].
  apply (draw_filled_circle_square initial 10 10 3 (1, 1, 1)%Q 13 13 H); lia.
Defined.

End CircleApp.
